(** * xpore.diffmod.io: grouping, model persistence and result table

    A shallow embedding of [src/xpore/diffmod/io.py].  Python dictionaries are
    finite maps ([gmap]) where only lookup matters and association lists where
    the iteration order is observable; Python exceptions are the [Raise] branch
    of [result]; Python floats are IEEE 754 binary64 values ([spec_float] with
    precision 53 and maximal exponent 1024). *)

From Stdlib Require Import ZArith String List Floats.SpecFloat.
From stdpp Require Import base option list gmap sets strings sorting pretty.

Local Open Scope string_scope.
Local Open Scope Z_scope.
Local Open Scope list_scope.

(** ** Python values and exceptions *)

Inductive exn :=
  IndexError | KeyError | ValueError | AttributeError | TypeError.

Inductive result (A : Type) :=
  | Ok (a : A)
  | Raise (e : exn).
Arguments Ok {A} a.
Arguments Raise {A} e.

#[global] Instance result_ret : MRet result := @Ok.
#[global] Instance result_bind : MBind result := λ A B f m,
  match m with Ok a => f a | Raise e => Raise e end.

Definition is_Ok {A} (m : result A) : Prop := ∃ a, m = Ok a.

(** [d[k]] on a dictionary: [KeyError] when the key is absent. *)
Definition getitem `{Countable K} {V} (d : gmap K V) (k : K) : result V :=
  match d !! k with
  | Some v => Ok v
  | None => Raise KeyError
  end.

(** Python [float]. *)
Definition float := spec_float.
Definition prec : Z := 53.
Definition emax : Z := 1024.

(** A position is whatever hashable the caller uses as a key: in practice an
    [int] or its decimal text. *)
Inductive position :=
  | PosInt (n : Z)
  | PosStr (s : string).

#[global] Instance position_eq_dec : EqDecision position.
Proof. solve_decision. Defined.

#[global] Instance position_countable : Countable position.
Proof.
  refine (inj_countable'
    (λ p, match p with PosInt n => inl n | PosStr s => inr s end)
    (λ q, match q with inl n => PosInt n | inr s => PosStr s end) _).
  by intros [].
Defined.

(** ** [get_dummies] *)

(** [sorted(list(set(x)))]: the distinct entries in increasing order.  The
    order in which a Python set is listed is unspecified; sorting makes the
    result independent of it. *)
Definition sorted_set (x : list string) : list string :=
  merge_sort String.le (elements (list_to_set x : gset string)).

(** [len(set(x))]. *)
Definition len_set (x : list string) : nat :=
  size (list_to_set x : gset string).

(** A two-dimensional array is the list of its rows. *)
Definition ncols {A} (m : list (list A)) : nat := length (hd [] m).

Definition column {A} (d : A) (j : nat) (m : list (list A)) : list A :=
  (λ row, nth j row d) <$> m.

(** [numpy.array(X).T] *)
Definition transpose {A} (d : A) (m : list (list A)) : list (list A) :=
  (λ j, column d j m) <$> seq 0 (ncols m).

Definition get_dummies (x : list string) : list (list bool) * list string :=
  let labels := sorted_set x in
  let X := (λ label, (λ e, bool_decide (e = label)) <$> x) <$> labels in
  (transpose false X, labels).

(** [m.sum(axis=0)] of a boolean array: the number of [True] per column. *)
Definition count_true (l : list bool) : Z :=
  Z.of_nat (length (filter (λ b, b = true) l)).

Definition sum_axis0 (m : list (list bool)) : list Z :=
  (λ j, count_true (column false j m)) <$> seq 0 (ncols m).

(** [(v < lo).any() or (v > hi).any()] *)
Definition out_of_bounds (min_count max_count : Z) (v : list Z) : bool :=
  existsb (λ c, c <? min_count) v || existsb (λ c, max_count <? c) v.

(** ** [load_data] *)

Record raw_record := {
  norm_means : list float;
  read_ids : list string;
}.

(** [data_dict[run_name][idx][position][kmer]] *)
Abbreviation data_dict_t :=
  (gmap string (gmap string (gmap position (gmap string raw_record)))).

Record sample_group := {
  sg_y : list float;
  sg_x : list (list bool);
  sg_r : list (list bool);
  sg_condition_names : list string;
  sg_run_names : list string;
  sg_read_ids : list string;
  sg_y_condition_names : list string;
  sg_y_run_names : list string;
}.

Definition group_key : Type := string * position * string.

(** Lines 31-33: the (pos, kmer) pairs of one run. *)
Definition pairs_of (d : gmap position (gmap string raw_record))
  : list (position * string) :=
  '(pos, kmers) ← map_to_list d; (λ e, (pos, e.1)) <$> map_to_list kmers.

(** Lines 28-34. *)
Fixpoint collect_pairs (data_dict : data_dict_t) (idx : string)
    (run_names : list string) : result (list (list (position * string))) :=
  match run_names with
  | [] => Ok []
  | run_name :: rest =>
      d_run ← getitem data_dict run_name;
      d_idx ← getitem d_run idx;
      more ← collect_pairs data_dict idx rest;
      Ok (pairs_of d_idx :: more)
  end.

(** Line 36: the set of the first list, intersected with every list (the
    first included); indexing an empty list is an [IndexError]. *)
Definition intersect_pairs (l : list (list (position * string)))
  : result (gset (position * string)) :=
  match l with
  | [] => Raise IndexError
  | first :: _ =>
      Ok (foldl (λ s ps, s ∩ list_to_set ps) (list_to_set first) l)
  end.

(** The four accumulators of lines 40-47. *)
Record gathered := {
  g_y : list float;
  g_read_ids : list string;
  g_condition_labels : list string;
  g_run_labels : list string;
}.

Definition gathered_nil : gathered :=
  {| g_y := []; g_read_ids := []; g_condition_labels := []; g_run_labels := [] |}.

(** Lines 41-47, over [zip(condition_names, run_names)]. *)
Fixpoint gather (data_dict : data_dict_t) (idx : string) (pos : position)
    (kmer : string) (zipped : list (string * string)) (acc : gathered)
  : result gathered :=
  match zipped with
  | [] => Ok acc
  | (condition_name, run_name) :: rest =>
      d_run ← getitem data_dict run_name;
      d_idx ← getitem d_run idx;
      d_pos ← getitem d_idx pos;
      rec ← getitem d_pos kmer;
      let n_reads := length (norm_means rec) in
      gather data_dict idx pos kmer rest
        {| g_y := g_y acc ++ norm_means rec;
           g_read_ids := g_read_ids acc ++ read_ids rec;
           g_condition_labels :=
             g_condition_labels acc ++ replicate n_reads condition_name;
           g_run_labels := g_run_labels acc ++ replicate n_reads run_name |}
  end.

(** Lines 53-68 for one gathered group: [None] is the [continue]. *)
Definition make_group (condition_names run_names : list string)
    (min_count max_count : Z) (pooling : bool) (g : gathered)
  : option sample_group :=
  if bool_decide (length (g_y g) = 0%nat)
     || negb (bool_decide (len_set (g_condition_labels g) = len_set condition_names))
     || (negb pooling
         && negb (bool_decide (len_set (g_run_labels g) = len_set run_names)))
  then None
  else
    let '(x, condition_names_dummies) := get_dummies (g_condition_labels g) in
    let '(r, run_names_dummies) := get_dummies (g_run_labels g) in
    if (if pooling
        then out_of_bounds min_count max_count (sum_axis0 x)
        else out_of_bounds min_count max_count (sum_axis0 r))
    then None
    else Some {| sg_y := g_y g; sg_x := x; sg_r := r;
                 sg_condition_names := condition_names_dummies;
                 sg_run_names := run_names_dummies;
                 sg_read_ids := g_read_ids g;
                 sg_y_condition_names := g_condition_labels g;
                 sg_y_run_names := g_run_labels g |}.

(** Lines 39-68: the loop over the surviving pairs. *)
Fixpoint load_groups (data_dict : data_dict_t) (idx : string)
    (condition_names run_names : list string) (min_count max_count : Z)
    (pooling : bool) (pairs : list (position * string))
  : result (list (group_key * sample_group)) :=
  match pairs with
  | [] => Ok []
  | (pos, kmer) :: rest =>
      g ← gather data_dict idx pos kmer (zip condition_names run_names)
             gathered_nil;
      more ← load_groups data_dict idx condition_names run_names
                min_count max_count pooling rest;
      match make_group condition_names run_names min_count max_count pooling g with
      | None => Ok more
      | Some sg => Ok (((idx, pos, kmer), sg) :: more)
      end
  end.

(** The returned [OrderedDict], as the list of its items.  The pairs are
    visited in the order [elements] lists the intersection; Python leaves the
    order of a set unspecified. *)
Definition load_data (idx : string) (data_dict : data_dict_t)
    (condition_names run_names : list string) (min_count max_count : Z)
    (pooling : bool) : result (list (group_key * sample_group)) :=
  per_run ← collect_pairs data_dict idx run_names;
  position_kmer_pairs ← intersect_pairs per_run;
  load_groups data_dict idx condition_names run_names min_count max_count
    pooling (elements position_kmer_pairs).

(** ** Result table: header *)

(** [sorted(list(set(cond2run_dict.keys())))] and
    [sorted(list(set(sum(list(cond2run_dict.values()), []))))]. *)
Definition get_ordered_condition_run_names
    (cond2run_dict : gmap string (list string)) : list string * list string :=
  let condition_names := sorted_set (map_to_list cond2run_dict).*1 in
  let run_names := sorted_set (concat (map_to_list cond2run_dict).*2) in
  (condition_names, run_names).

(** [itertools.combinations(l, 2)] *)
Fixpoint combinations2 {A} (l : list A) : list (A * A) :=
  match l with
  | [] => []
  | a :: rest => ((λ b, (a, b)) <$> rest) ++ combinations2 rest
  end.

Definition get_result_table_header
    (cond2run_dict : gmap string (list string)) : list string :=
  let '(condition_names, run_names) :=
    get_ordered_condition_run_names cond2run_dict in
  let stats_pairwise :=
    '(cond1, cond2) ← combinations2 condition_names;
    let pair := cond1 +:+ "_vs_" +:+ cond2 in
    ["p_ws_" +:+ pair; "ws_mean_diff_" +:+ pair; "abs_z_score_" +:+ pair] in
  let stats_one_vs_all :=
    condition_name ← condition_names;
    ["p_ws_" +:+ condition_name +:+ "_vs_all";
     "ws_mean_diff_" +:+ condition_name +:+ "_vs_all";
     "abs_z_score_" +:+ condition_name +:+ "_vs_all"] in
  let header :=
    ["idx"; "position"; "kmer"; "mu_min"; "mu_max"; "sigma2_min"; "sigma2_max"] in
  let header := header ++ ["p_overlap"] in
  let header := header ++ ["x_x1"; "y_x1"; "x_x2"; "y_x2"] in
  let header := header ++ ((λ run_name, "w_min_" +:+ run_name) <$> run_names) in
  let header := header ++ ((λ run_name, "coverage_" +:+ run_name) <$> run_names) in
  let header := header ++ stats_pairwise in
  if bool_decide (2 < length condition_names)%nat
  then header ++ stats_one_vs_all
  else header.

(** ** Result table: rows *)

(** Python text: [str], or the [bytes] a container hands back.  Both carry
    their UTF-8 octets. *)
Inductive pytext :=
  | Str (s : string)
  | Bytes (s : string).


Definition model_key : Type := string * position * pytext.

(** A two-dimensional float array: its second dimension and its rows (each of
    that length, see [matrix_wf]). *)
Record matrix := {
  shape1 : nat;
  rows : list (list float);
}.

Definition matrix_wf (m : matrix) : Prop :=
  Forall (λ row, length row = shape1 m) (rows m).

(** Modelled from the spec: the fitted-model class [GMM] of
    [xpore/diffmod/gmm.py] is not among the sources; a fitted model is
    represented by what [generate_result_table] reads from it: the posterior
    expectations of the [mu_tau] node, the per-group weights of the [w] node
    (one row per group, one column per component), the expected counts [N] of
    the [y] node and the [group_names] of the [x] node. *)
Record fitted := {
  mu_tau_expected : list float;
  mu_tau_expected_gamma : list float;
  w_expected : matrix;
  y_N : matrix;
  x_group_names : list string;
}.

(** Modelled from the spec: the statistics module [xpore/utils/stats.py] is
    not among the sources.  Its two primitives are parameters with the
    signatures of the collaborator contracts ([overlap] and
    [two_sample_test]); numpy's [mean] and [sum] are parameters as well. *)
Class Stats := {
  calc_prob_overlapping : list float → list float → float * list float;
  z_test : list float → list float → list float → list float → float * float;
  numpy_mean : list float → float;
  numpy_sum : list float → float;
}.

Definition fone : float := SFone prec emax.
Definition fsub (a b : float) : float := SFsub prec emax a b.
Definition fdiv (a b : float) : float := SFdiv prec emax a b.
Definition fltb (a b : float) : bool := SFltb a b.
Definition fleb (a b : float) : bool := SFleb a b.
Definition fabs (a : float) : float := SFabs a.

(** A one-dimensional array after [.squeeze()]: a single entry collapses to a
    zero-dimensional array. *)
Inductive squeezed :=
  | Arr0 (v : float)
  | Arr1 (l : list float).

Definition squeeze (l : list float) : squeezed :=
  match l with
  | [v] => Arr0 v
  | _ => Arr1 l
  end.

Definition squeezed_map (f : float → float) (a : squeezed) : squeezed :=
  match a with
  | Arr0 v => Arr0 (f v)
  | Arr1 l => Arr1 (f <$> l)
  end.

(** [a[mask]] for a boolean mask over the first axis: the mask must be as long
    as the axis. *)
Fixpoint select {A} (mask : list bool) (a : list A) : result (list A) :=
  match mask, a with
  | [], [] => Ok []
  | b :: mask', v :: a' =>
      rest ← select mask' a';
      Ok (if b then v :: rest else rest)
  | _, _ => Raise IndexError
  end.

(** [a[mask]] for a squeezed array: a zero-dimensional array takes no
    one-dimensional index. *)
Definition squeezed_select (mask : list bool) (a : squeezed)
  : result (list float) :=
  match a with
  | Arr0 _ => Raise IndexError
  | Arr1 l => select mask l
  end.

(** [l[i]] *)
Definition index {A} (l : list A) (i : nat) : result A :=
  match l !! i with
  | Some v => Ok v
  | None => Raise IndexError
  end.

(** [m[:, j]] *)
Definition column_at (j : nat) (m : matrix) : result (list float) :=
  if bool_decide (j < shape1 m)%nat
  then mapM (M := result) (λ row, index row j) (rows m)
  else Raise IndexError.

(** [m[mask, j]] *)
Definition select_column (mask : list bool) (j : nat) (m : matrix)
  : result (list float) :=
  selected ← select mask (rows m);
  column_at j {| shape1 := shape1 m; rows := selected |}.

(** [numpy.isin(names, runs)] *)
Definition isin (names runs : list string) : list bool :=
  (λ n, bool_decide (n ∈ runs)) <$> names.

(** [numpy.isin(names, run_name)] for a single name. *)
Definition isin1 (names : list string) (run_name : string) : list bool :=
  (λ n, bool_decide (n = run_name)) <$> names.

Inductive cell :=
  | CStr (s : string)
  | CPos (p : position)
  | CText (t : pytext)
  | CFloat (f : float).

Section table.
Context `{Stats}.

(** Lines 232-241 and 248-257: the three statistics of two pools. *)
Definition pool_stats (w_cond1 w_cond2 n_cond1 n_cond2 : list float)
  : list cell :=
  let '(z_score, p_ws) := z_test w_cond1 w_cond2 n_cond1 n_cond2 in
  let ws_mean_diff := fabs (fsub (numpy_mean w_cond1) (numpy_mean w_cond2)) in
  let abs_z_score := fabs z_score in
  [CFloat p_ws; CFloat ws_mean_diff; CFloat abs_z_score].

(** Lines 229-241. *)
Fixpoint stats_pairwise_of (cond2run_dict : gmap string (list string))
    (w : matrix) (coverage : list float)
    (model_group_names : list string) (pairs : list (string * string))
  : result (list cell) :=
  match pairs with
  | [] => Ok []
  | (cond1, cond2) :: rest =>
      runs1 ← getitem cond2run_dict cond1;
      runs2 ← getitem cond2run_dict cond2;
      w_cond1 ← select_column (isin model_group_names runs1) 0 w;
      w_cond2 ← select_column (isin model_group_names runs2) 0 w;
      n_cond1 ← select (isin model_group_names runs1) coverage;
      n_cond2 ← select (isin model_group_names runs2) coverage;
      more ← stats_pairwise_of cond2run_dict w coverage model_group_names rest;
      Ok (pool_stats w_cond1 w_cond2 n_cond1 n_cond2 ++ more)
  end.

(** Lines 245-257. *)
Fixpoint stats_one_vs_all_of (cond2run_dict : gmap string (list string))
    (w : matrix) (coverage : list float)
    (model_group_names : list string) (condition_names : list string)
  : result (list cell) :=
  match condition_names with
  | [] => Ok []
  | condition_name :: rest =>
      runs1 ← getitem cond2run_dict condition_name;
      w_cond1 ← select_column (isin model_group_names runs1) 0 w;
      w_cond2 ← select_column (negb <$> isin model_group_names runs1) 0 w;
      n_cond1 ← select (isin model_group_names runs1) coverage;
      n_cond2 ← select (negb <$> isin model_group_names runs1) coverage;
      more ← stats_one_vs_all_of cond2run_dict w coverage model_group_names rest;
      Ok (pool_stats w_cond1 w_cond2 n_cond1 n_cond2 ++ more)
  end.

(** Lines 259-264: the orientation of the two components. *)
Definition orient (mu sigma2 : list float) (w0 : squeezed)
  : result (list float * list float * squeezed) :=
  mu1 ← index mu 1%nat;
  mu0 ← index mu 0%nat;
  if fltb mu1 mu0
  then Ok (reverse mu, reverse sigma2, squeezed_map (fsub fone) w0)
  else Ok (mu, sigma2, w0).

(** Lines 266-269. *)
Fixpoint ordered_by_run (w_min : squeezed) (coverage : list float)
    (model_group_names : list string) (run_names : list string)
  : result (list float * list float) :=
  match run_names with
  | [] => Ok ([], [])
  | run_name :: rest =>
      ws ← squeezed_select (isin1 model_group_names run_name) w_min;
      cs ← select (isin1 model_group_names run_name) coverage;
      more ← ordered_by_run w_min coverage model_group_names rest;
      Ok (ws ++ more.1, cs ++ more.2)
  end.

(** Lines 211-280: the row of one model.  [N0] and [N1] are computed and
    never used; only their indexing can fail. *)
Definition row_of (cond2run_dict : gmap string (list string))
    (condition_names run_names : list string)
    (key : model_key) (model : fitted) : result (list cell) :=
  let '(idx, position, kmer) := key in
  let mu := mu_tau_expected model in
  let sigma2 := fdiv fone <$> mu_tau_expected_gamma model in
  let w := w_expected model in
  N0 ← column_at 0 (y_N model);
  N1 ← column_at 1 (y_N model);
  w_col0 ← column_at 0 w;
  let w0 := squeeze w_col0 in
  let coverage := numpy_sum <$> rows (y_N model) in
  let '(p_overlap, list_cdf_at_intersections) :=
    calc_prob_overlapping mu sigma2 in
  let model_group_names := x_group_names model in
  stats_pairwise ← stats_pairwise_of cond2run_dict w coverage
                      model_group_names (combinations2 condition_names);
  stats_one_vs_all ←
    (if bool_decide (2 < length condition_names)%nat
     then stats_one_vs_all_of cond2run_dict w coverage model_group_names
            condition_names
     else Ok []);
  '(mu, sigma2, w_min) ← orient mu sigma2 w0;
  '(w_min_ordered, coverage_ordered) ←
    ordered_by_run w_min coverage model_group_names run_names;
  let row := [CStr idx; CPos position; CText kmer]
               ++ (CFloat <$> mu) ++ (CFloat <$> sigma2) ++ [CFloat p_overlap] in
  let row := row ++ (CFloat <$> list_cdf_at_intersections) in
  let row := row ++ (CFloat <$> w_min_ordered) ++ (CFloat <$> coverage_ordered) in
  let row := row ++ stats_pairwise in
  if bool_decide (2 < length condition_names)%nat
  then Ok (row ++ stats_one_vs_all)
  else Ok row.

(** Lines 209-282: one row per item of [models], in order. *)
Fixpoint rows_of (cond2run_dict : gmap string (list string))
    (condition_names run_names : list string)
    (models : list (model_key * fitted)) : result (list (list cell)) :=
  match models with
  | [] => Ok []
  | (key, model) :: rest =>
      row ← row_of cond2run_dict condition_names run_names key model;
      table ← rows_of cond2run_dict condition_names run_names rest;
      Ok (row :: table)
  end.

Definition generate_result_table (models : list (model_key * fitted))
    (cond2run_dict : gmap string (list string)) : result (list (list cell)) :=
  let '(condition_names, run_names) :=
    get_ordered_condition_run_names cond2run_dict in
  rows_of cond2run_dict condition_names run_names models.
End table.

(** ** Model store *)

(** A parameter value: a numeric array with its shape, or a sequence of
    texts (the [group_names]). *)
Inductive value :=
  | Floats (shape : list nat) (data : list float)
  | Texts (l : list pytext).

(** Modelled from the spec: the class [GMM] of [xpore/diffmod/gmm.py] is not
    among the sources.  For persistence a model is an [info] mapping and a
    [nodes] mapping from node names to parameters: [None], or an ordered
    mapping of named arrays.  Mappings are listed in iteration order. *)
Record GMM := {
  info : list (string * value);
  nodes : list (string * option (list (string * value)));
}.

(** A leaf of the container: a numeric array or an array of fixed-length byte
    strings.  Names and texts are taken to be plain: no path separator in a
    name, no NUL octet in a text. *)
Inductive dataset :=
  | DFloats (shape : list nat) (data : list float)
  | DBytes (l : list string).

(** One [<idx>/<position>] group: the [kmer] attribute and the [info] and
    [nodes] groups. *)
Record position_group := {
  attr_kmer : string;
  group_info : gmap string dataset;
  group_nodes : gmap string (gmap string dataset);
}.

Abbreviation h5file := (gmap string (gmap string position_group)).

(** [str(position)] *)
Definition str (p : position) : string :=
  match p with
  | PosInt n => pretty n
  | PosStr s => s
  end.

(** [t.encode('UTF-8')]: only [str] has the method. *)
Definition encode (t : pytext) : result string :=
  match t with
  | Str s => Ok s
  | Bytes _ => Raise AttributeError
  end.

Definition as_bytes (t : pytext) : option string :=
  match t with
  | Bytes s => Some s
  | Str _ => None
  end.

(** Line 110: [[val.encode('UTF-8') for val in value]]. *)
Definition encode_group_names (v : value) : result value :=
  match v with
  | Texts l => encoded ← mapM (M := result) encode l; Ok (Texts (Bytes <$> encoded))
  | Floats [] _ => Raise TypeError
  | Floats (O :: _) _ => Ok (Texts [])
  | Floats _ _ => Raise AttributeError
  end.

(** What the container makes of an assigned value: a numeric array is kept, a
    sequence of [bytes] becomes a byte-string array, an empty sequence an
    empty numeric array, and a sequence holding [str] has no conversion. *)
Definition to_dataset (v : value) : result dataset :=
  match v with
  | Floats shape data => Ok (DFloats shape data)
  | Texts [] => Ok (DFloats [O] [])
  | Texts l =>
      match mapM as_bytes l with
      | Some bs => Ok (DBytes bs)
      | None => Raise TypeError
      end
  end.

(** [group[name] = value]: the name must be new. *)
Definition assign (g : gmap string dataset) (name : string) (v : value)
  : result (gmap string dataset) :=
  d ← to_dataset v;
  match g !! name with
  | Some _ => Raise ValueError
  | None => Ok (<[name := d]> g)
  end.

(** Lines 100-101. *)
Fixpoint save_info (g : gmap string dataset) (items : list (string * value))
  : result (gmap string dataset) :=
  match items with
  | [] => Ok g
  | (key, value) :: rest =>
      g' ← assign g key value;
      save_info g' rest
  end.

(** Lines 108-111. *)
Fixpoint save_params (g : gmap string dataset) (items : list (string * value))
  : result (gmap string dataset) :=
  match items with
  | [] => Ok g
  | (param_name, value) :: rest =>
      value ← (if bool_decide (param_name = "group_names")
               then encode_group_names value
               else Ok value);
      g' ← assign g param_name value;
      save_params g' rest
  end.

(** Lines 104-111; [create_group] refuses a name already there. *)
Fixpoint save_nodes (g : gmap string (gmap string dataset))
    (model_nodes : list (string * option (list (string * value))))
  : result (gmap string (gmap string dataset)) :=
  match model_nodes with
  | [] => Ok g
  | (node_name, params) :: rest =>
      match g !! node_name with
      | Some _ => Raise ValueError
      | None =>
          match params with
          | None => save_nodes (<[node_name := ∅]> g) rest
          | Some items =>
              leaves ← save_params ∅ items;
              save_nodes (<[node_name := leaves]> g) rest
          end
      end
  end.

(** Lines 91-111. *)
Fixpoint save_models_into (model_file : h5file)
    (models : list (model_key * GMM)) : result h5file :=
  match models with
  | [] => Ok model_file
  | ((idx, position, kmer), model) :: rest =>
      let position := str position in
      let under_idx := default ∅ (model_file !! idx) in
      match under_idx !! position with
      | Some _ => Raise ValueError
      | None =>
          kmer ← encode kmer;
          info_group ← save_info ∅ (info model);
          nodes_group ← save_nodes ∅ (nodes model);
          save_models_into
            (<[idx := <[position := {| attr_kmer := kmer;
                                       group_info := info_group;
                                       group_nodes := nodes_group |}]> under_idx]>
               model_file)
            rest
      end
  end.

Definition save_models (models : list (model_key * GMM)) : result h5file :=
  save_models_into ∅ models.

(** How the container library hands back a variable-length text attribute
    that was written from [bytes]: as [bytes] before its version 3, as [str]
    from version 3 on. *)
Inductive h5py_api := H5py2 | H5py3.

Definition read_attr (api : h5py_api) (stored : string) : pytext :=
  match api with
  | H5py2 => Bytes stored
  | H5py3 => Str stored
  end.

(** [value[:]]: a scalar leaf takes no slice. *)
Definition read_dataset (d : dataset) : result value :=
  match d with
  | DFloats [] _ => Raise ValueError
  | DFloats shape data => Ok (Floats shape data)
  | DBytes l => Ok (Texts (Bytes <$> l))
  end.

Definition node_vocabulary : list string := ["x"; "y"; "w"; "mu_tau"; "z"].

(** Line 137: [inits['nodes']], every node with an empty parameter mapping. *)
Definition inits_nodes : gmap string (gmap string value) :=
  list_to_map ((λ name, (name, ∅)) <$> node_vocabulary).

(** Lines 143-144 for one stored node: the leaf is read, then filed under the
    node, which must be one of the vocabulary. *)
Fixpoint load_params (inits : gmap string (gmap string value))
    (node_name : string) (leaves : list (string * dataset))
  : result (gmap string (gmap string value)) :=
  match leaves with
  | [] => Ok inits
  | (param_name, d) :: rest =>
      value ← read_dataset d;
      so_far ← getitem inits node_name;
      load_params (<[node_name := <[param_name := value]> so_far]> inits)
        node_name rest
  end.

(** Lines 142-144. *)
Fixpoint load_nodes (inits : gmap string (gmap string value))
    (stored : list (string * gmap string dataset))
  : result (gmap string (gmap string value)) :=
  match stored with
  | [] => Ok inits
  | (node_name, params) :: rest =>
      inits' ← load_params inits node_name (map_to_list params);
      load_nodes inits' rest
  end.

(** Modelled from the spec: the constructor [GMM(inits=inits)] is not among
    the sources.  It rebuilds a model purely from the stored arrays: every
    node of the fixed vocabulary carries the parameters read for it (none for
    a node absent from storage), and [info] is not restored. *)
Definition GMM_of_inits (inits : gmap string (gmap string value)) : GMM :=
  {| info := [];
     nodes := (λ name, (name, Some (map_to_list (default ∅ (inits !! name)))))
                <$> node_vocabulary |}.

(** Lines 137-148 for one stored position. *)
Definition load_position (api : h5py_api) (idx position : string)
    (g : position_group) : result (model_key * GMM) :=
  let kmer := read_attr api (attr_kmer g) in
  let key := (idx, PosStr position, kmer) in
  inits ← load_nodes inits_nodes (map_to_list (group_nodes g));
  Ok (key, GMM_of_inits inits).

(** Lines 135-148.  The container lists names in an order of its own; the
    result is a dictionary, listed here in the order the container is read. *)
Definition load_models (api : h5py_api) (model_file : h5file)
  : result (list (model_key * GMM)) :=
  mapM (M := result)
    (λ '(idx, position, g), load_position api idx position g)
    ('(idx, under_idx) ← map_to_list model_file;
     (λ e, (idx, e.1, e.2)) <$> map_to_list under_idx).

(** ** Vocabulary of the statements *)

(** The record [data_dict[run_name][idx][pos][kmer]] exists. *)
Definition present (data_dict : data_dict_t) (run_name idx : string)
    (pos : position) (kmer : string) : Prop :=
  ∃ d_run d_idx d_pos rec,
    data_dict !! run_name = Some d_run ∧ d_run !! idx = Some d_idx
    ∧ d_idx !! pos = Some d_pos ∧ d_pos !! kmer = Some rec.

Definition in_bounds (min_count max_count c : Z) : Prop :=
  min_count ≤ c ≤ max_count.

(** One row per sample, one column per name: the entry tells whether the
    sample carries the name. *)
Definition one_hot (names labels : list string) : list (list bool) :=
  (λ e, (λ n, bool_decide (e = n)) <$> names) <$> labels.

(** Every raw record has as many read identifiers as signal values. *)
Definition records_aligned (data_dict : data_dict_t) : Prop :=
  ∀ run_name idx pos kmer d_run d_idx d_pos rec,
    data_dict !! run_name = Some d_run → d_run !! idx = Some d_idx →
    d_idx !! pos = Some d_pos → d_pos !! kmer = Some rec →
    length (read_ids rec) = length (norm_means rec).

(** The entries of [vals] whose group name satisfies [P], in group order:
    what indexing by a membership mask selects. *)
Definition pooled_by {A} (P : string → Prop) `{∀ n, Decision (P n)}
    (names : list string) (vals : list A) : list A :=
  (filter (λ nv, P nv.1) (zip names vals)).*2.

(** The names of the one-vs-all columns. *)
Definition one_vs_all_columns (condition_names : list string) : list string :=
  condition_name ← condition_names;
  ["p_ws_" +:+ condition_name +:+ "_vs_all";
   "ws_mean_diff_" +:+ condition_name +:+ "_vs_all";
   "abs_z_score_" +:+ condition_name +:+ "_vs_all"].

(** The columns before the statistics: seven of the key and the components,
    one overlap probability, four intersection coordinates, two per run. *)
Definition n_leading_columns (run_names : list string) : nat :=
  12 + 2 * length run_names.

Section statistics.
Context `{Stats}.

(** The statistics of two pools as the specification words them: the test on
    the pooled first-component weights [w[:,0]] weighted by the pooled
    coverage gives the p-value and the z-score; the mean difference of the
    two pools and the z-score are reported in absolute value. *)
Definition pool_statistics (names : list string) (w0 coverage : list float)
    (in_pool1 in_pool2 : string → Prop)
    `{∀ n, Decision (in_pool1 n)} `{∀ n, Decision (in_pool2 n)} : list cell :=
  let w1 := pooled_by in_pool1 names w0 in
  let w2 := pooled_by in_pool2 names w0 in
  let n1 := pooled_by in_pool1 names coverage in
  let n2 := pooled_by in_pool2 names coverage in
  [CFloat (z_test w1 w2 n1 n2).2;
   CFloat (fabs (fsub (numpy_mean w1) (numpy_mean w2)));
   CFloat (fabs (z_test w1 w2 n1 n2).1)].

(** One triple per unordered pair of conditions, each pool being the runs of
    one condition. *)
Definition pairwise_statistics (cond2run_dict : gmap string (list string))
    (names : list string) (w0 coverage : list float)
    (condition_names : list string) : list cell :=
  '(cond1, cond2) ← combinations2 condition_names;
  pool_statistics names w0 coverage
    (λ n, n ∈ cond2run_dict !!! cond1) (λ n, n ∈ cond2run_dict !!! cond2).

(** One triple per condition: its runs against all the other groups. *)
Definition one_vs_all_statistics (cond2run_dict : gmap string (list string))
    (names : list string) (w0 coverage : list float)
    (condition_names : list string) : list cell :=
  condition_name ← condition_names;
  pool_statistics names w0 coverage
    (λ n, n ∈ cond2run_dict !!! condition_name)
    (λ n, n ∉ cond2run_dict !!! condition_name).
End statistics.

(** A float that is a number. *)
Definition is_number (f : float) : Prop := f ≠ S754_nan.

(** The entries of a squeezed array. *)
Definition squeezed_list (a : squeezed) : list float :=
  match a with
  | Arr0 v => [v]
  | Arr1 l => l
  end.

(** The values of the groups named [run_name], for each run in turn. *)
Definition per_run (names : list string) (vals : list float)
    (run_names : list string) : list float :=
  run_name ← run_names; pooled_by (λ n, n = run_name) names vals.

(** The names of the pairwise columns. *)
Definition pairwise_columns (condition_names : list string) : list string :=
  '(cond1, cond2) ← combinations2 condition_names;
  let pair := cond1 +:+ "_vs_" +:+ cond2 in
  ["p_ws_" +:+ pair; "ws_mean_diff_" +:+ pair; "abs_z_score_" +:+ pair].

Definition condition_names_of (cond2run_dict : gmap string (list string))
  : list string := (get_ordered_condition_run_names cond2run_dict).1.

Definition run_names_of (cond2run_dict : gmap string (list string))
  : list string := (get_ordered_condition_run_names cond2run_dict).2.

(** [N.sum(axis=-1)] *)
Definition coverage_of `{Stats} (model : fitted) : list float :=
  numpy_sum <$> rows (y_N model).

(** [1. / expected(var='gamma')] *)
Definition sigma2_of (model : fitted) : list float :=
  fdiv fone <$> mu_tau_expected_gamma model.

Section layout.
Context `{Stats}.

(** The row of a model whose first-component weights are [w0], laid out
    column by column; [swapped] tells whether the second mean is below the
    first. *)
Definition row_layout (cond2run_dict : gmap string (list string))
    (key : model_key) (model : fitted) (swapped : bool) (w0 : list float)
  : list cell :=
  let condition_names := condition_names_of cond2run_dict in
  let run_names := run_names_of cond2run_dict in
  let mu := mu_tau_expected model in
  let sigma2 := sigma2_of model in
  let names := x_group_names model in
  let overlap := calc_prob_overlapping mu sigma2 in
  let w_min := if swapped then fsub fone <$> w0 else w0 in
  ([CStr key.1.1; CPos key.1.2; CText key.2]
   ++ (CFloat <$> (if swapped then reverse mu else mu))
   ++ (CFloat <$> (if swapped then reverse sigma2 else sigma2))
   ++ [CFloat overlap.1] ++ (CFloat <$> overlap.2)
   ++ (CFloat <$> per_run names w_min run_names)
   ++ (CFloat <$> per_run names (coverage_of model) run_names))
  ++ pairwise_statistics cond2run_dict names w0 (coverage_of model)
       condition_names
  ++ (if bool_decide (2 < length condition_names)%nat
      then one_vs_all_statistics cond2run_dict names w0 (coverage_of model)
             condition_names
      else []).
End layout.


(** The group stored under [<idx>/<position>], if any. *)
Definition file_lookup (model_file : h5file) (idx position : string)
  : option position_group :=
  under_idx ← model_file !! idx; under_idx !! position.

(** What the row computation needs of a model: two component means, weights
    and counts with a row per group name, a first column of weights and two
    columns of counts, and, when a run is looked up, more than one group (a
    single one is squeezed away). *)
Definition fitted_wf (run_names : list string) (model : fitted) : Prop :=
  (2 ≤ length (mu_tau_expected model))%nat
  ∧ matrix_wf (w_expected model) ∧ matrix_wf (y_N model)
  ∧ (1 ≤ shape1 (w_expected model))%nat ∧ (2 ≤ shape1 (y_N model))%nat
  ∧ length (rows (w_expected model)) = length (x_group_names model)
  ∧ length (rows (y_N model)) = length (x_group_names model)
  ∧ (run_names = [] ∨ length (x_group_names model) ≠ 1%nat).



(** The group a key is stored under. *)
Definition group_path (entry : model_key * GMM) : string * string :=
  (entry.1.1.1, str entry.1.1.2).


(** Every leaf can be read back. *)
Definition readable (leaves : gmap string dataset) : Prop :=
  ∀ k d, leaves !! k = Some d → is_Ok (read_dataset d).

(** Stored nodes [load_models] accepts: readable leaves, and a vocabulary
    name for every node that has leaves. *)
Definition loadable_nodes (stored : gmap string (gmap string dataset)) : Prop :=
  ∀ n leaves, stored !! n = Some leaves →
    readable leaves ∧ (leaves ≠ ∅ → n ∈ node_vocabulary).

Definition loadable_file (model_file : h5file) : Prop :=
  ∀ idx position g, file_lookup model_file idx position = Some g →
    loadable_nodes (group_nodes g).

(** ** Vocabulary of the further properties *)

(** How many entries of [labels] are [l]. *)
Definition occurrences (l : string) (labels : list string) : Z :=
  Z.of_nat (length (filter (λ e, e = l) labels)).

(** [rec] is the record [data_dict[run_name][idx][pos][kmer]]. *)
Definition record_at (data_dict : data_dict_t) (run_name idx : string)
    (pos : position) (kmer : string) (rec : raw_record) : Prop :=
  ∃ d_run d_idx d_pos,
    data_dict !! run_name = Some d_run ∧ d_run !! idx = Some d_idx
    ∧ d_idx !! pos = Some d_pos ∧ d_pos !! kmer = Some rec.

(** Entry [i] of the gathered values comes from a record of the run that
    labels it, and its condition label is the one paired with that run. *)
Definition labelled (data_dict : data_dict_t) (idx : string) (pos : position)
    (kmer : string) (pairing : list (string * string))
    (y : list float) (condition_labels run_labels : list string) : Prop :=
  ∀ i v, y !! i = Some v →
    ∃ c r rec,
      condition_labels !! i = Some c ∧ run_labels !! i = Some r
      ∧ (c, r) ∈ pairing
      ∧ record_at data_dict r idx pos kmer rec ∧ v ∈ norm_means rec.

(** ** Concrete data for the examples *)

(** 1.0 and 0.5 *)
Definition f_one : float := S754_finite false 4503599627370496 (-52).
Definition f_half : float := S754_finite false 4503599627370496 (-53).

Definition ex_record : raw_record :=
  {| norm_means := [f_one; f_half]; read_ids := ["read_1"; "read_2"] |}.

(** Two values, one read identifier. *)
Definition ex_record_short : raw_record :=
  {| norm_means := [f_one; f_half]; read_ids := ["read_1"] |}.

(** Two runs sharing position 7; position 8 is in [run_b] only. *)
Definition ex_data : data_dict_t :=
  {[ "run_a" := {[ "gene" := {[ PosInt 7 := {[ "AACGT" := ex_record ]} ]} ]};
     "run_b" := {[ "gene" := {[ PosInt 7 := {[ "AACGT" := ex_record ]};
                                PosInt 8 := {[ "ACGTT" := ex_record ]} ]} ]} ]}.

Definition ex_data_short : data_dict_t :=
  {[ "run_a" := {[ "gene" := {[ PosInt 7 := {[ "AACGT" := ex_record_short ]} ]} ]};
     "run_b" := {[ "gene" := {[ PosInt 7 := {[ "AACGT" := ex_record ]} ]} ]} ]}.

Definition ex_group : sample_group :=
  {| sg_y := [f_one; f_half; f_one; f_half];
     sg_x := [[true; false]; [true; false]; [false; true]; [false; true]];
     sg_r := [[true; false]; [true; false]; [false; true]; [false; true]];
     sg_condition_names := ["c1"; "c2"];
     sg_run_names := ["run_a"; "run_b"];
     sg_read_ids := ["read_1"; "read_2"; "read_1"; "read_2"];
     sg_y_condition_names := ["c1"; "c1"; "c2"; "c2"];
     sg_y_run_names := ["run_a"; "run_a"; "run_b"; "run_b"] |}.

Definition f_zero : float := S754_zero false.

(** Stand-ins for the numerical routines: the test reports the first weight
    of each pool, the overlap routine four coordinates, the reductions the
    first entry. *)
Definition ex_stats : Stats :=
  {| calc_prob_overlapping := λ mu sigma2, (f_half, [f_zero; f_zero; f_one; f_one]);
     z_test := λ w1 w2 n1 n2, (hd S754_nan w1, hd S754_nan w2);
     numpy_mean := λ l, hd S754_nan l;
     numpy_sum := λ l, hd S754_nan l |}.

(** Two groups; the second component mean lies below the first. *)
Definition ex_fitted : fitted :=
  {| mu_tau_expected := [f_one; f_half];
     mu_tau_expected_gamma := [f_one; f_half];
     w_expected := {| shape1 := 2; rows := [[f_one; f_zero]; [f_half; f_half]] |};
     y_N := {| shape1 := 2; rows := [[f_one; f_one]; [f_half; f_half]] |};
     x_group_names := ["run_a"; "run_b"] |}.

(** The same model with an undefined first mean. *)
Definition ex_fitted_nan : fitted :=
  {| mu_tau_expected := [S754_nan; f_half];
     mu_tau_expected_gamma := [f_one; f_half];
     w_expected := w_expected ex_fitted;
     y_N := y_N ex_fitted;
     x_group_names := x_group_names ex_fitted |}.

Definition ex_key : model_key := ("gene", PosInt 7, Str "AACGT").

Definition ex_cond2run : gmap string (list string) :=
  {[ "c1" := ["run_a"]; "c2" := ["run_b"] ]}.

(** A mapping naming a run the model was not fitted on. *)
Definition ex_cond2run_extra : gmap string (list string) :=
  {[ "c1" := ["run_a"]; "c2" := ["run_b"; "run_c"] ]}.

Definition ex_cond2run3 : gmap string (list string) :=
  {[ "c1" := ["run_a"]; "c2" := ["run_b"]; "c3" := ["run_c"] ]}.

Definition ex_row : list cell :=
  [CStr "gene"; CPos (PosInt 7); CText (Str "AACGT");
   CFloat f_half; CFloat f_one; CFloat (S754_finite false 4503599627370496 (-51));
   CFloat f_one; CFloat f_half;
   CFloat f_zero; CFloat f_zero; CFloat f_one; CFloat f_one;
   CFloat f_zero; CFloat f_half; CFloat f_one; CFloat f_half;
   CFloat f_half; CFloat f_half; CFloat f_one].

(** Three groups, one per condition of [ex_cond2run3]. *)
Definition ex_fitted3 : fitted :=
  {| mu_tau_expected := [f_half; f_one];
     mu_tau_expected_gamma := [f_one; f_one];
     w_expected := {| shape1 := 2;
                      rows := [[f_one; f_zero]; [f_half; f_half]; [f_zero; f_one]] |};
     y_N := {| shape1 := 2;
               rows := [[f_one; f_one]; [f_half; f_half]; [f_one; f_half]] |};
     x_group_names := ["run_a"; "run_b"; "run_c"] |}.

(** A model with group names, a weight array and a node without parameters. *)
Definition ex_model : GMM :=
  {| info := [("n_iterations", Floats [1%nat] [f_one])];
     nodes := [("x", Some [("group_names", Texts [Str "run_a"; Str "run_b"])]);
               ("w", Some [("concentration",
                            Floats [2%nat; 2%nat] [f_one; f_half; f_half; f_one])]);
               ("z", None)] |}.

Definition ex_models : list (model_key * GMM) := [(ex_key, ex_model)].



(** The file holding [ex_models], and what is loaded from it when text
    attributes come back as [bytes]. *)
Definition ex_saved : h5file :=
  match save_models ex_models with
  | Ok saved => saved
  | Raise _ => ∅
  end.

Definition ex_loaded : list (model_key * GMM) :=
  [(("gene", PosStr "7", Bytes "AACGT"),
    GMM_of_inits
      (<["x" := {[ "group_names" := Texts [Bytes "run_a"; Bytes "run_b"] ]}]>
         (<["w" := {[ "concentration" :=
                        Floats [2%nat; 2%nat] [f_one; f_half; f_half; f_one] ]}]>
            inits_nodes)))].

(** A model fitted on a single group. *)
Definition ex_fitted_single : fitted :=
  {| mu_tau_expected := [f_one; f_half];
     mu_tau_expected_gamma := [f_one; f_half];
     w_expected := {| shape1 := 2; rows := [[f_one; f_zero]] |};
     y_N := {| shape1 := 2; rows := [[f_one; f_one]] |};
     x_group_names := ["run_a"] |}.

(** Three conditions, one of them named [all]. *)
Definition ex_cond2run_all : gmap string (list string) :=
  {[ "a" := ["run_a"]; "all" := ["run_b"]; "b" := ["run_c"] ]}.
(** * Properties *)

(** ** The error monad *)

Lemma bind_Ok {A B} (m : result A) (f : A → result B) (b : B) :
  m ≫= f = Ok b → ∃ a, m = Ok a ∧ f a = Ok b.
Proof. destruct m as [a|e]; simpl; [eauto | discriminate]. Qed.

Lemma getitem_Ok `{Countable K} {V} (d : gmap K V) (k : K) (v : V) :
  getitem d k = Ok v ↔ d !! k = Some v.
Proof. unfold getitem. destruct (d !! k); split; congruence. Qed.

Ltac inv_bind H :=
  let a := fresh "a" in
  let Ha := fresh "Ha" in
  apply bind_Ok in H as (a & Ha & H).

Ltac inv_Ok :=
  repeat match goal with
  | H : mret _ = Ok _ |- _ => unfold mret, result_ret in H
  | H : Ok _ = Ok _ |- _ => injection H as H; try subst
  | H : Raise _ = Ok _ |- _ => discriminate H
  | H : getitem _ _ = Ok _ |- _ => apply getitem_Ok in H
  | H : _ ≫= _ = Ok _ |- _ => inv_bind H
  | H : mbind _ _ = Ok _ |- _ => inv_bind H
  end.

(** ** [load_data]: which pairs survive *)

Lemma elem_of_pairs_of d pos kmer :
  (pos, kmer) ∈ pairs_of d
  ↔ ∃ kmers rec, d !! pos = Some kmers ∧ kmers !! kmer = Some rec.
Proof.
  unfold pairs_of. rewrite list_elem_of_bind. split.
  - intros ([p kmers] & Hin & Hp). apply elem_of_map_to_list in Hp.
    apply list_elem_of_fmap in Hin as ([k rec] & Heq & Hk).
    apply elem_of_map_to_list in Hk. simpl in Heq. simplify_eq. eauto.
  - intros (kmers & rec & Hp & Hk). exists (pos, kmers). split.
    + apply list_elem_of_fmap. exists (kmer, rec). split; [done|].
      by apply elem_of_map_to_list.
    + by apply elem_of_map_to_list.
Qed.

Lemma collect_pairs_Ok data_dict idx run_names per_run :
  collect_pairs data_dict idx run_names = Ok per_run →
  Forall2 (λ run_name ps, ∃ d_run d_idx,
             data_dict !! run_name = Some d_run ∧ d_run !! idx = Some d_idx
             ∧ ps = pairs_of d_idx) run_names per_run.
Proof.
  revert per_run. induction run_names as [|run_name rest IH]; intros per_run Hc.
  - simpl in Hc. inv_Ok. constructor.
  - simpl in Hc. inv_Ok. constructor; eauto.
Qed.

Lemma elem_of_foldl_intersection (l : list (list (position * string)))
    (s : gset (position * string)) p :
  p ∈ foldl (λ s ps, s ∩ list_to_set ps) s l ↔ p ∈ s ∧ ∀ ps, ps ∈ l → p ∈ ps.
Proof.
  revert s. induction l as [|ps l IH]; intros s; simpl.
  - split; [intros ?; split; [done | intros ? ?%elem_of_nil; done] | tauto].
  - rewrite IH, elem_of_intersection, elem_of_list_to_set. split.
    + intros [[Hs Hps] Hl]. split; [done|].
      intros ps' [->|?]%elem_of_cons; auto.
    + intros [Hs Hl]. split; [split; [done|] |].
      * apply Hl. left.
      * intros ps' ?. apply Hl. by right.
Qed.

Lemma intersect_pairs_Ok data_dict idx run_names per_run s pos kmer :
  collect_pairs data_dict idx run_names = Ok per_run →
  intersect_pairs per_run = Ok s →
  (pos, kmer) ∈ s
  ↔ ∀ run_name, run_name ∈ run_names → present data_dict run_name idx pos kmer.
Proof.
  intros Hc%collect_pairs_Ok Hi. unfold intersect_pairs in Hi.
  destruct per_run as [|first more]; [discriminate|]. injection Hi as <-.
  rewrite elem_of_foldl_intersection.
  transitivity (∀ ps, ps ∈ first :: more → (pos, kmer) ∈ ps).
  { rewrite elem_of_intersection, elem_of_list_to_set. split.
    - intros [[? _] Hm] ps [->|?]%elem_of_cons; auto.
    - intros Hall. split; [split; apply Hall; left |].
      intros ps ?. apply Hall. by right. }
  set (per_run := first :: more) in *. split.
  - intros Hall run_name Hin.
    apply list_elem_of_lookup in Hin as [i Hi].
    destruct (Forall2_lookup_l _ _ _ _ _ Hc Hi)
      as (ps & Hps & d_run & d_idx & ? & ? & ->).
    apply list_elem_of_lookup_2 in Hps. apply Hall in Hps.
    apply elem_of_pairs_of in Hps as (kmers & rec & ? & ?).
    by exists d_run, d_idx, kmers, rec.
  - intros Hall ps Hin. apply list_elem_of_lookup in Hin as [i Hi].
    destruct (Forall2_lookup_r _ _ _ _ _ Hc Hi)
      as (run_name & Hr & d_run & d_idx & ? & ? & ->).
    apply list_elem_of_lookup_2 in Hr. apply Hall in Hr.
    destruct Hr as (d_run' & d_idx' & d_pos & rec & ? & ? & ? & ?).
    simplify_eq. apply elem_of_pairs_of. eauto.
Qed.

Lemma load_groups_Ok data_dict idx condition_names run_names min_count
    max_count pooling pairs data key sg :
  load_groups data_dict idx condition_names run_names min_count max_count
    pooling pairs = Ok data →
  (key, sg) ∈ data
  ↔ ∃ pos kmer g,
      key = (idx, pos, kmer) ∧ (pos, kmer) ∈ pairs
      ∧ gather data_dict idx pos kmer (zip condition_names run_names)
          gathered_nil = Ok g
      ∧ make_group condition_names run_names min_count max_count pooling g
        = Some sg.
Proof.
  revert data. induction pairs as [|[pos kmer] rest IH]; intros data Hl.
  - simpl in Hl. inv_Ok. split.
    + intros ?%elem_of_nil. done.
    + intros (? & ? & ? & _ & ?%elem_of_nil & _). done.
  - simpl in Hl. inv_bind Hl. inv_bind Hl. specialize (IH _ Ha0).
    destruct (make_group _ _ _ _ _ a) as [sg'|] eqn:Hm; inv_Ok.
    + rewrite elem_of_cons, IH. split.
      * intros [Heq | (pos' & kmer' & g & ? & ? & ? & ?)].
        -- simplify_eq. exists pos, kmer, a. repeat split; auto. left.
        -- exists pos', kmer', g. repeat split; auto. by right.
      * intros (pos' & kmer' & g & -> & [Heq|Hin]%elem_of_cons & Hg & Hmk).
        -- simplify_eq. left. congruence.
        -- right. by exists pos', kmer', g.
    + rewrite IH. split.
      * intros (pos' & kmer' & g & ? & ? & ? & ?).
        exists pos', kmer', g. repeat split; auto. by right.
      * intros (pos' & kmer' & g & -> & [Heq|Hin]%elem_of_cons & Hg & Hmk).
        -- simplify_eq. congruence.
        -- by exists pos', kmer', g.
Qed.

(** An entry of the result is a pair present under every run, gathered over
    the zipped names and kept by the filters. *)
Lemma load_data_Ok idx data_dict condition_names run_names min_count
    max_count pooling data key sg :
  load_data idx data_dict condition_names run_names min_count max_count
    pooling = Ok data →
  (key, sg) ∈ data
  ↔ ∃ pos kmer g,
      key = (idx, pos, kmer)
      ∧ (∀ run_name, run_name ∈ run_names →
           present data_dict run_name idx pos kmer)
      ∧ gather data_dict idx pos kmer (zip condition_names run_names)
          gathered_nil = Ok g
      ∧ make_group condition_names run_names min_count max_count pooling g
        = Some sg.
Proof.
  unfold load_data. intros Hl. inv_bind Hl. inv_bind Hl.
  rewrite (load_groups_Ok _ _ _ _ _ _ _ _ _ _ _ Hl).
  split; intros (pos & kmer & g & ? & Hp & ? & ?); exists pos, kmer, g;
    repeat split; auto.
  - apply elem_of_elements in Hp.
    by apply (intersect_pairs_Ok _ _ _ _ _ _ _ Ha Ha0).
  - apply elem_of_elements.
    by apply (intersect_pairs_Ok _ _ _ _ _ _ _ Ha Ha0).
Qed.

(** ** [load_data]: what is gathered *)

Lemma gather_lengths data_dict idx pos kmer zipped acc g :
  gather data_dict idx pos kmer zipped acc = Ok g →
  length (g_condition_labels acc) = length (g_y acc) →
  length (g_run_labels acc) = length (g_y acc) →
  length (g_condition_labels g) = length (g_y g)
  ∧ length (g_run_labels g) = length (g_y g).
Proof.
  revert acc. induction zipped as [|[condition_name run_name] rest IH];
    intros acc Hg Hc Hr; simpl in Hg.
  - by inv_Ok.
  - do 4 inv_bind Hg. apply IH in Hg; [done | simpl..];
      rewrite !length_app, length_replicate; lia.
Qed.

Lemma gather_read_ids data_dict idx pos kmer zipped acc g :
  records_aligned data_dict →
  gather data_dict idx pos kmer zipped acc = Ok g →
  length (g_read_ids acc) = length (g_y acc) →
  length (g_read_ids g) = length (g_y g).
Proof.
  intros Hal. revert acc.
  induction zipped as [|[condition_name run_name] rest IH];
    intros acc Hg Hacc; simpl in Hg.
  - by inv_Ok.
  - do 4 inv_bind Hg. inv_Ok. apply IH in Hg; [done|]. simpl.
    rewrite !length_app, Hacc. f_equal. eapply Hal; eauto.
Qed.

Lemma gather_labels data_dict idx pos kmer zipped acc g :
  gather data_dict idx pos kmer zipped acc = Ok g →
  (∀ c, c ∈ g_condition_labels g →
        c ∈ g_condition_labels acc ∨ c ∈ zipped.*1)
  ∧ (∀ r, r ∈ g_run_labels g → r ∈ g_run_labels acc ∨ r ∈ zipped.*2).
Proof.
  revert acc. induction zipped as [|[condition_name run_name] rest IH];
    intros acc Hg; simpl in Hg.
  - inv_Ok. auto.
  - do 4 inv_bind Hg. apply IH in Hg as [Hc Hr]. simpl in *. split.
    + intros c [[?|[-> _]%elem_of_replicate]%elem_of_app|?]%Hc; auto.
      * right. left.
      * right. by right.
    + intros r [[?|[-> _]%elem_of_replicate]%elem_of_app|?]%Hr; auto.
      * right. left.
      * right. by right.
Qed.

Lemma gather_labels_requested data_dict idx pos kmer condition_names
    run_names g :
  gather data_dict idx pos kmer (zip condition_names run_names) gathered_nil
    = Ok g →
  g_condition_labels g ⊆ condition_names ∧ g_run_labels g ⊆ run_names.
Proof.
  intros [Hc Hr]%gather_labels. split.
  - intros c [[]%elem_of_nil|Hin]%Hc.
    apply list_elem_of_fmap in Hin as ([c' r'] & -> & Hin).
    by apply elem_of_zip_l in Hin.
  - intros r [[]%elem_of_nil|Hin]%Hr.
    apply list_elem_of_fmap in Hin as ([c' r'] & -> & Hin).
    by apply elem_of_zip_r in Hin.
Qed.

(** ** [get_dummies] *)

Lemma sorted_set_Permutation x :
  sorted_set x ≡ₚ elements (list_to_set x : gset string).
Proof. apply merge_sort_Permutation. Qed.

Lemma elem_of_sorted_set x l : l ∈ sorted_set x ↔ l ∈ x.
Proof.
  by rewrite sorted_set_Permutation, elem_of_elements, elem_of_list_to_set.
Qed.

Lemma NoDup_sorted_set x : NoDup (sorted_set x).
Proof. rewrite sorted_set_Permutation. apply NoDup_elements. Qed.

Lemma StronglySorted_sorted_set x : StronglySorted String.le (sorted_set x).
Proof. apply StronglySorted_merge_sort; apply _. Qed.

Lemma length_sorted_set x : length (sorted_set x) = len_set x.
Proof. by rewrite sorted_set_Permutation. Qed.

Lemma sorted_set_nil_inv x : sorted_set x = [] → x = [].
Proof.
  intros Hs. destruct x as [|e x]; [done|].
  assert (He : e ∈ sorted_set (e :: x)) by (apply elem_of_sorted_set; left).
  rewrite Hs in He. by apply elem_of_nil in He.
Qed.

(** The transposed comparison table is the one-hot encoding of the labels
    against the sorted distinct names. *)
Lemma get_dummies_one_hot x :
  get_dummies x = (one_hot (sorted_set x) x, sorted_set x).
Proof.
  unfold get_dummies, one_hot, transpose. f_equal.
  destruct (sorted_set x) as [|l0 ls] eqn:Hs.
  - apply sorted_set_nil_inv in Hs as ->. done.
  - unfold ncols. simpl hd. rewrite length_fmap.
    generalize (l0 :: ls). clear. intros names.
    apply list_eq. intros i. rewrite !list_lookup_fmap.
    destruct (x !! i) as [e|] eqn:Hi.
    + rewrite lookup_seq_lt by (by eapply lookup_lt_Some).
      cbn [fmap option_fmap option_map]. f_equal.
      unfold column. rewrite <- list_fmap_compose. apply list_fmap_ext.
      intros _ label _. cbn [compose].
      apply nth_lookup_Some with (d := false).
      by rewrite Nat.add_0_l, list_lookup_fmap, Hi.
    + rewrite lookup_seq_ge; [done|]. by apply lookup_ge_None.
Qed.

Lemma length_one_hot names labels : length (one_hot names labels) = length labels.
Proof. unfold one_hot. by rewrite length_fmap. Qed.

Lemma out_of_bounds_false min_count max_count v :
  out_of_bounds min_count max_count v = false
  ↔ Forall (in_bounds min_count max_count) v.
Proof.
  unfold out_of_bounds, in_bounds. rewrite orb_false_iff. induction v as [|c v IH].
  - simpl. split; [constructor | done].
  - simpl. rewrite Forall_cons, !orb_false_iff, <- IH, Z.ltb_ge, Z.ltb_ge. tauto.
Qed.

(** ** [load_data]: the filters *)

Lemma make_group_Some condition_names run_names min_count max_count pooling
    g sg :
  make_group condition_names run_names min_count max_count pooling g = Some sg →
  sg = {| sg_y := g_y g;
          sg_x := one_hot (sorted_set (g_condition_labels g)) (g_condition_labels g);
          sg_r := one_hot (sorted_set (g_run_labels g)) (g_run_labels g);
          sg_condition_names := sorted_set (g_condition_labels g);
          sg_run_names := sorted_set (g_run_labels g);
          sg_read_ids := g_read_ids g;
          sg_y_condition_names := g_condition_labels g;
          sg_y_run_names := g_run_labels g |}
  ∧ g_y g ≠ []
  ∧ len_set (g_condition_labels g) = len_set condition_names
  ∧ (pooling = false → len_set (g_run_labels g) = len_set run_names)
  ∧ Forall (in_bounds min_count max_count)
      (sum_axis0 (if pooling then sg_x sg else sg_r sg)).
Proof.
  unfold make_group. rewrite !get_dummies_one_hot.
  destruct (bool_decide (length (g_y g) = 0%nat)) eqn:Hy; [done|].
  destruct (bool_decide (len_set (g_condition_labels g) = len_set condition_names))
    eqn:Hc; [|done].
  apply bool_decide_eq_false in Hy. apply bool_decide_eq_true in Hc. simpl.
  assert (Hne : g_y g ≠ []) by (intros Heq; by rewrite Heq in Hy).
  destruct pooling; simpl.
  - destruct (out_of_bounds _ _ _) eqn:Hb; [done|]. intros [= <-]. simpl.
    split_and!; [done..|]. by apply out_of_bounds_false.
  - destruct (bool_decide (len_set (g_run_labels g) = len_set run_names))
      eqn:Hr; [|done].
    apply bool_decide_eq_true in Hr. simpl.
    destruct (out_of_bounds _ _ _) eqn:Hb; [done|]. intros [= <-]. simpl.
    split_and!; [done..|]. by apply out_of_bounds_false.
Qed.

(** A subset of the requested names with as many distinct members is the
    whole set: the cardinality test of line 53 is a test of set equality. *)
Lemma len_set_eq_iff (observed requested : list string) :
  observed ⊆ requested →
  len_set observed = len_set requested
  ↔ (list_to_set observed : gset string) = list_to_set requested.
Proof.
  intros Hsub. unfold len_set. split; [|by intros ->].
  intros Hlen. apply set_subseteq_size_eq; [|lia].
  intros e. rewrite !elem_of_list_to_set. apply Hsub.
Qed.

(** ** [load_data]: the claims *)

Example load_data_ex :
  load_data "gene" ex_data ["c1"; "c2"] ["run_a"; "run_b"] 2 3000 false
  = Ok [(("gene", PosInt 7, "AACGT"), ex_group)].
Proof. vm_compute. reflexivity. Qed.

(** With a threshold above the coverage the group is left out. *)
Example load_data_ex_below_min_count :
  load_data "gene" ex_data ["c1"; "c2"] ["run_a"; "run_b"] 3 3000 false = Ok [].
Proof. vm_compute. reflexivity. Qed.

(** C5: every key of an emitted group is [(idx, pos, kmer)] for a pair present
    under every run of [run_names]; a pair that some run lacks is the key of
    no emitted group. *)
Theorem load_data_pairs_in_every_run idx data_dict condition_names run_names
    min_count max_count pooling data :
  load_data idx data_dict condition_names run_names min_count max_count
    pooling = Ok data →
  (∀ key sg, (key, sg) ∈ data →
     ∃ pos kmer, key = (idx, pos, kmer)
       ∧ ∀ run_name, run_name ∈ run_names →
           present data_dict run_name idx pos kmer)
  ∧ (∀ pos kmer run_name, run_name ∈ run_names →
       ¬ present data_dict run_name idx pos kmer →
       ∀ sg, ((idx, pos, kmer), sg) ∉ data).
Proof.
  intros Hl. split.
  - intros key sg Hin.
    apply (load_data_Ok _ _ _ _ _ _ _ _ _ _ Hl) in Hin
      as (pos & kmer & g & -> & Hp & _).
    by exists pos, kmer.
  - intros pos kmer run_name Hrun Hmiss sg Hin.
    apply (load_data_Ok _ _ _ _ _ _ _ _ _ _ Hl) in Hin
      as (pos' & kmer' & g & Heq & Hp & _).
    simplify_eq. by apply Hmiss, Hp.
Qed.

Lemma load_data_pairs_in_every_run_witness :
  (∀ key sg, (key, sg) ∈ [(("gene", PosInt 7, "AACGT"), ex_group)] →
     ∃ pos kmer, key = ("gene", pos, kmer)
       ∧ ∀ run_name, run_name ∈ ["run_a"; "run_b"] →
           present ex_data run_name "gene" pos kmer)
  ∧ (∀ pos kmer run_name, run_name ∈ ["run_a"; "run_b"] →
       ¬ present ex_data run_name "gene" pos kmer →
       ∀ sg, (("gene", pos, kmer), sg) ∉ [(("gene", PosInt 7, "AACGT"), ex_group)]).
Proof.
  apply (load_data_pairs_in_every_run "gene" ex_data ["c1"; "c2"]
           ["run_a"; "run_b"] 2 3000 false).
  vm_compute. reflexivity.
Defined.

(** C6: in every emitted group the column sums of [x] (pooling) or of [r]
    (no pooling) lie in [[min_count, max_count]]; a gathered group whose
    applicable column sums leave the bounds is absent from the result, which
    is returned all the same. *)
Theorem load_data_coverage_filter idx data_dict condition_names run_names
    min_count max_count pooling data :
  load_data idx data_dict condition_names run_names min_count max_count
    pooling = Ok data →
  (∀ key sg, (key, sg) ∈ data →
     Forall (in_bounds min_count max_count)
       (sum_axis0 (if pooling then sg_x sg else sg_r sg)))
  ∧ (∀ pos kmer g,
       gather data_dict idx pos kmer (zip condition_names run_names)
         gathered_nil = Ok g →
       ¬ Forall (in_bounds min_count max_count)
           (sum_axis0 (get_dummies (if pooling then g_condition_labels g
                                    else g_run_labels g)).1) →
       ∀ sg, ((idx, pos, kmer), sg) ∉ data).
Proof.
  intros Hl. split.
  - intros key sg Hin.
    apply (load_data_Ok _ _ _ _ _ _ _ _ _ _ Hl) in Hin
      as (pos & kmer & g & -> & _ & _ & Hm).
    by apply make_group_Some in Hm as (_ & _ & _ & _ & Hb).
  - intros pos kmer g Hg Hviol sg Hin.
    apply (load_data_Ok _ _ _ _ _ _ _ _ _ _ Hl) in Hin
      as (pos' & kmer' & g' & Heq & _ & Hg' & Hm).
    simplify_eq. assert (g' = g) as -> by congruence.
    apply make_group_Some in Hm as (-> & _ & _ & _ & Hb).
    apply Hviol. rewrite get_dummies_one_hot. destruct pooling; exact Hb.
Qed.

Lemma load_data_coverage_filter_witness :
  (∀ key sg, (key, sg) ∈ [(("gene", PosInt 7, "AACGT"), ex_group)] →
     Forall (in_bounds 2 3000) (sum_axis0 (sg_r sg)))
  ∧ (∀ pos kmer g,
       gather ex_data "gene" pos kmer (zip ["c1"; "c2"] ["run_a"; "run_b"])
         gathered_nil = Ok g →
       ¬ Forall (in_bounds 2 3000) (sum_axis0 (get_dummies (g_run_labels g)).1) →
       ∀ sg, (("gene", pos, kmer), sg) ∉ [(("gene", PosInt 7, "AACGT"), ex_group)]).
Proof.
  apply (load_data_coverage_filter "gene" ex_data ["c1"; "c2"]
           ["run_a"; "run_b"] 2 3000 false).
  vm_compute. reflexivity.
Defined.

(** C7: an emitted group has a non-empty [y], observed condition labels
    forming exactly the requested set and, without pooling, observed run
    labels forming exactly the requested run set; a gathered group failing one
    of the three is absent from the result. *)
Theorem load_data_label_sets idx data_dict condition_names run_names
    min_count max_count pooling data :
  load_data idx data_dict condition_names run_names min_count max_count
    pooling = Ok data →
  (∀ key sg, (key, sg) ∈ data →
     sg_y sg ≠ []
     ∧ list_to_set (sg_y_condition_names sg) =@{gset string}
         list_to_set condition_names
     ∧ (pooling = false →
          list_to_set (sg_y_run_names sg) =@{gset string} list_to_set run_names))
  ∧ (∀ pos kmer g,
       gather data_dict idx pos kmer (zip condition_names run_names)
         gathered_nil = Ok g →
       g_y g = []
       ∨ list_to_set (g_condition_labels g) ≠@{gset string}
           list_to_set condition_names
       ∨ (pooling = false
          ∧ list_to_set (g_run_labels g) ≠@{gset string} list_to_set run_names) →
       ∀ sg, ((idx, pos, kmer), sg) ∉ data).
Proof.
  intros Hl.
  assert (Hkept : ∀ pos kmer g sg,
    gather data_dict idx pos kmer (zip condition_names run_names)
      gathered_nil = Ok g →
    make_group condition_names run_names min_count max_count pooling g
      = Some sg →
    g_y g ≠ []
    ∧ list_to_set (g_condition_labels g) =@{gset string}
        list_to_set condition_names
    ∧ (pooling = false →
         list_to_set (g_run_labels g) =@{gset string} list_to_set run_names)).
  { intros pos kmer g sg Hg Hm.
    apply gather_labels_requested in Hg as [Hc Hr].
    apply make_group_Some in Hm as (_ & Hy & Hlc & Hlr & _).
    split_and!; [done | by apply len_set_eq_iff |].
    intros Hp. apply len_set_eq_iff; auto. }
  split.
  - intros key sg Hin.
    apply (load_data_Ok _ _ _ _ _ _ _ _ _ _ Hl) in Hin
      as (pos & kmer & g & -> & _ & Hg & Hm).
    destruct (Hkept _ _ _ _ Hg Hm) as (? & ? & ?).
    by apply make_group_Some in Hm as (-> & _).
  - intros pos kmer g Hg Hfail sg Hin.
    apply (load_data_Ok _ _ _ _ _ _ _ _ _ _ Hl) in Hin
      as (pos' & kmer' & g' & Heq & _ & Hg' & Hm).
    simplify_eq. assert (g' = g) as -> by congruence.
    destruct (Hkept _ _ _ _ Hg Hm) as (? & ? & ?).
    destruct Hfail as [?|[?|[? ?]]]; auto.
Qed.

Lemma load_data_label_sets_witness :
  (∀ key sg, (key, sg) ∈ [(("gene", PosInt 7, "AACGT"), ex_group)] →
     sg_y sg ≠ []
     ∧ list_to_set (sg_y_condition_names sg) =@{gset string}
         list_to_set ["c1"; "c2"]
     ∧ (false = false →
          list_to_set (sg_y_run_names sg) =@{gset string}
            list_to_set ["run_a"; "run_b"]))
  ∧ (∀ pos kmer g,
       gather ex_data "gene" pos kmer (zip ["c1"; "c2"] ["run_a"; "run_b"])
         gathered_nil = Ok g →
       g_y g = []
       ∨ list_to_set (g_condition_labels g) ≠@{gset string}
           list_to_set ["c1"; "c2"]
       ∨ (false = false
          ∧ list_to_set (g_run_labels g) ≠@{gset string}
              list_to_set ["run_a"; "run_b"]) →
       ∀ sg, (("gene", pos, kmer), sg) ∉ [(("gene", PosInt 7, "AACGT"), ex_group)]).
Proof.
  apply (load_data_label_sets "gene" ex_data ["c1"; "c2"]
           ["run_a"; "run_b"] 2 3000 false).
  vm_compute. reflexivity.
Defined.

(** C9, amended: in every emitted group the names heading the columns of [x]
    and [r] are the distinct observed labels in increasing lexicographic
    order, [x] and [r] are the one-hot encodings of the labels against them,
    and [y], [x], [r] and the two label arrays have the same number of rows;
    so have the read identifiers when every raw record holds as many read
    identifiers as values. *)
Theorem load_data_encoding idx data_dict condition_names run_names
    min_count max_count pooling data key sg :
  load_data idx data_dict condition_names run_names min_count max_count
    pooling = Ok data →
  (key, sg) ∈ data →
  (StronglySorted String.le (sg_condition_names sg)
   ∧ NoDup (sg_condition_names sg)
   ∧ ∀ l, l ∈ sg_condition_names sg ↔ l ∈ sg_y_condition_names sg)
  ∧ (StronglySorted String.le (sg_run_names sg)
     ∧ NoDup (sg_run_names sg)
     ∧ ∀ l, l ∈ sg_run_names sg ↔ l ∈ sg_y_run_names sg)
  ∧ sg_x sg = one_hot (sg_condition_names sg) (sg_y_condition_names sg)
  ∧ sg_r sg = one_hot (sg_run_names sg) (sg_y_run_names sg)
  ∧ length (sg_x sg) = length (sg_y sg)
  ∧ length (sg_r sg) = length (sg_y sg)
  ∧ length (sg_y_condition_names sg) = length (sg_y sg)
  ∧ length (sg_y_run_names sg) = length (sg_y sg)
  ∧ (records_aligned data_dict → length (sg_read_ids sg) = length (sg_y sg)).
Proof.
  intros Hl Hin.
  apply (load_data_Ok _ _ _ _ _ _ _ _ _ _ Hl) in Hin
    as (pos & kmer & g & -> & _ & Hg & Hm).
  apply make_group_Some in Hm as (-> & _). simpl.
  destruct (gather_lengths _ _ _ _ _ _ _ Hg eq_refl eq_refl) as [Hc Hr].
  split_and!;
    auto using StronglySorted_sorted_set, NoDup_sorted_set, elem_of_sorted_set.
  - by rewrite length_one_hot.
  - by rewrite length_one_hot.
  - intros Hal. by apply (gather_read_ids _ _ _ _ _ _ _ Hal Hg).
Qed.

Lemma load_data_encoding_witness :
  (StronglySorted String.le (sg_condition_names ex_group)
   ∧ NoDup (sg_condition_names ex_group)
   ∧ ∀ l, l ∈ sg_condition_names ex_group ↔ l ∈ sg_y_condition_names ex_group)
  ∧ (StronglySorted String.le (sg_run_names ex_group)
     ∧ NoDup (sg_run_names ex_group)
     ∧ ∀ l, l ∈ sg_run_names ex_group ↔ l ∈ sg_y_run_names ex_group)
  ∧ sg_x ex_group
    = one_hot (sg_condition_names ex_group) (sg_y_condition_names ex_group)
  ∧ sg_r ex_group = one_hot (sg_run_names ex_group) (sg_y_run_names ex_group)
  ∧ length (sg_x ex_group) = length (sg_y ex_group)
  ∧ length (sg_r ex_group) = length (sg_y ex_group)
  ∧ length (sg_y_condition_names ex_group) = length (sg_y ex_group)
  ∧ length (sg_y_run_names ex_group) = length (sg_y ex_group)
  ∧ (records_aligned ex_data →
     length (sg_read_ids ex_group) = length (sg_y ex_group)).
Proof.
  apply (load_data_encoding "gene" ex_data ["c1"; "c2"] ["run_a"; "run_b"]
           2 3000 false [(("gene", PosInt 7, "AACGT"), ex_group)]
           ("gene", PosInt 7, "AACGT") ex_group).
  - vm_compute. reflexivity.
  - left.
Defined.

(** C9 as stated fails: a raw record with two values and one read identifier
    yields a group whose read identifiers are fewer than its rows. *)
Lemma load_data_read_ids_counterexample :
  ∃ data key sg,
    load_data "gene" ex_data_short ["c1"; "c2"] ["run_a"; "run_b"] 2 3000 false
    = Ok data
    ∧ (key, sg) ∈ data
    ∧ length (sg_read_ids sg) ≠ length (sg_y sg).
Proof.
  eexists _, ("gene", PosInt 7, "AACGT"), _. split_and!.
  - vm_compute. reflexivity.
  - left.
  - simpl. lia.
Qed.

(** C10: with no run name the first per-run pair list does not exist and
    [load_data] raises instead of returning an empty mapping. *)
Theorem load_data_no_runs idx data_dict condition_names min_count max_count
    pooling :
  load_data idx data_dict condition_names [] min_count max_count pooling
  = Raise IndexError.
Proof. reflexivity. Qed.

(** ** Masks and columns *)

Lemma select_Ok {A} (P : string → Prop) `{∀ n, Decision (P n)}
    (names : list string) (vals v : list A) :
  select ((λ n, bool_decide (P n)) <$> names) vals = Ok v →
  v = pooled_by P names vals ∧ length names = length vals.
Proof.
  unfold pooled_by. revert vals v.
  induction names as [|n names IH]; intros [|a vals] v Hs; simpl in Hs;
    try discriminate.
  - by inv_Ok.
  - inv_bind Hs. apply IH in Ha as [-> Hlen]. simpl.
    rewrite filter_cons, Hlen. simpl.
    destruct (decide (P n)).
    + rewrite bool_decide_eq_true_2 in Hs by done. by inv_Ok.
    + rewrite bool_decide_eq_false_2 in Hs by done. by inv_Ok.
Qed.

Lemma select_isin names runs (vals v : list float) :
  select (isin names runs) vals = Ok v →
  v = pooled_by (λ n, n ∈ runs) names vals.
Proof. intros Hs. by apply select_Ok in Hs as [-> _]. Qed.

Lemma select_isin1 names run_name (vals v : list float) :
  select (isin1 names run_name) vals = Ok v →
  v = pooled_by (λ n, n = run_name) names vals.
Proof. intros Hs. by apply select_Ok in Hs as [-> _]. Qed.

Lemma select_not_isin names runs (vals v : list float) :
  select (negb <$> isin names runs) vals = Ok v →
  v = pooled_by (λ n, n ∉ runs) names vals.
Proof.
  intros Hs. apply (select_Ok (λ n, n ∉ runs)).
  rewrite <- Hs. f_equal. unfold isin. rewrite <- list_fmap_compose.
  apply list_fmap_ext. intros _ n _. simpl. by rewrite bool_decide_not.
Qed.

Lemma mapM_select {A B} (f : A → result B) mask (l sel : list A)
    (ys v : list B) :
  select mask l = Ok sel →
  mapM (M := result) f l = Ok ys →
  mapM (M := result) f sel = Ok v →
  select mask ys = Ok v.
Proof.
  revert l sel ys v.
  induction mask as [|b mask IH]; intros [|a l] sel ys v Hs Hl Hv;
    simpl in Hs; try discriminate.
  - simpl in Hl. inv_Ok. simpl in Hv. by inv_Ok.
  - inv_bind Hs. simpl in Hl. inv_bind Hl. inv_bind Hl. inv_Ok.
    destruct b; simpl in *.
    + inv_bind Hv. inv_bind Hv. inv_Ok.
      erewrite IH by eauto. simpl. congruence.
    + erewrite IH by eauto. done.
Qed.

Lemma column_at_Ok j m v :
  column_at j m = Ok v → mapM (M := result) (λ row, index row j) (rows m) = Ok v.
Proof. unfold column_at. by case_bool_decide. Qed.

Lemma select_column_Ok mask j w wj v :
  select_column mask j w = Ok v →
  column_at j w = Ok wj →
  select mask wj = Ok v.
Proof.
  unfold select_column. intros Hs Hw. inv_bind Hs.
  apply column_at_Ok in Hs, Hw. simpl in Hs. by eapply mapM_select.
Qed.

Lemma squeezed_list_squeeze l : squeezed_list (squeeze l) = l.
Proof. by destruct l as [|? [|? ?]]. Qed.

Lemma squeezed_list_map f a :
  squeezed_list (squeezed_map f a) = f <$> squeezed_list a.
Proof. by destruct a. Qed.

Lemma index_Ok {A} (l : list A) i v : index l i = Ok v ↔ l !! i = Some v.
Proof. unfold index. destruct (l !! i); split; congruence. Qed.

(** ** The row of one model *)

Section table_properties.
Context `{Stats}.

Lemma pool_stats_statistics names (w0 coverage : list float)
    (P1 P2 : string → Prop) `{∀ n, Decision (P1 n)} `{∀ n, Decision (P2 n)} :
  pool_stats (pooled_by P1 names w0) (pooled_by P2 names w0)
    (pooled_by P1 names coverage) (pooled_by P2 names coverage)
  = pool_statistics names w0 coverage P1 P2.
Proof. unfold pool_stats, pool_statistics. by destruct (z_test _ _ _ _). Qed.

Lemma length_pool_statistics names (w0 coverage : list float)
    (P1 P2 : string → Prop) `{∀ n, Decision (P1 n)} `{∀ n, Decision (P2 n)} :
  length (pool_statistics names w0 coverage P1 P2) = 3%nat.
Proof. done. Qed.

Lemma stats_pairwise_of_Ok cond2run_dict w w0 coverage names pairs v :
  stats_pairwise_of cond2run_dict w coverage names pairs = Ok v →
  column_at 0 w = Ok w0 →
  v = '(cond1, cond2) ← pairs;
      pool_statistics names w0 coverage
        (λ n, n ∈ cond2run_dict !!! cond1) (λ n, n ∈ cond2run_dict !!! cond2).
Proof.
  intros Hs Hw. revert v Hs.
  induction pairs as [|[cond1 cond2] rest IH]; intros v Hs; simpl in Hs.
  - by inv_Ok.
  - do 7 inv_bind Hs. inv_Ok.
    apply (select_column_Ok _ _ _ _ _ Ha1) in Hw as Hw1.
    apply (select_column_Ok _ _ _ _ _ Ha2) in Hw as Hw2.
    apply select_isin in Hw1, Hw2, Ha3, Ha4. subst.
    simpl. rewrite (IH _ Ha5).
    rewrite (lookup_total_correct _ _ _ Ha), (lookup_total_correct _ _ _ Ha0).
    by rewrite pool_stats_statistics.
Qed.

Lemma stats_one_vs_all_of_Ok cond2run_dict w w0 coverage names conds v :
  stats_one_vs_all_of cond2run_dict w coverage names conds = Ok v →
  column_at 0 w = Ok w0 →
  v = condition_name ← conds;
      pool_statistics names w0 coverage
        (λ n, n ∈ cond2run_dict !!! condition_name)
        (λ n, n ∉ cond2run_dict !!! condition_name).
Proof.
  intros Hs Hw. revert v Hs.
  induction conds as [|condition_name rest IH]; intros v Hs; simpl in Hs.
  - by inv_Ok.
  - do 6 inv_bind Hs. inv_Ok.
    apply (select_column_Ok _ _ _ _ _ Ha0) in Hw as Hw1.
    apply (select_column_Ok _ _ _ _ _ Ha1) in Hw as Hw2.
    apply select_isin in Hw1, Ha2. apply select_not_isin in Hw2, Ha3. subst.
    simpl. rewrite (IH _ Ha4), (lookup_total_correct _ _ _ Ha).
    by rewrite pool_stats_statistics.
Qed.

Lemma ordered_by_run_Ok w_min coverage names run_names ws cs :
  ordered_by_run w_min coverage names run_names = Ok (ws, cs) →
  ws = per_run names (squeezed_list w_min) run_names
  ∧ cs = per_run names coverage run_names.
Proof.
  unfold per_run. revert ws cs.
  induction run_names as [|run_name rest IH]; intros ws cs Ho; simpl in Ho.
  - by inv_Ok.
  - do 3 inv_bind Ho. inv_Ok. destruct a1 as [ws' cs'].
    destruct (IH _ _ Ha1) as [-> ->]. simpl.
    apply select_isin1 in Ha0 as ->.
    destruct w_min as [v|l]; [discriminate|]. simpl in Ha.
    by apply select_isin1 in Ha as ->.
Qed.

Lemma orient_Ok mu sigma2 w0 mu' sigma2' w_min :
  orient mu sigma2 w0 = Ok (mu', sigma2', w_min) →
  ∃ m0 m1, mu !! 0%nat = Some m0 ∧ mu !! 1%nat = Some m1
    ∧ mu' = (if fltb m1 m0 then reverse mu else mu)
    ∧ sigma2' = (if fltb m1 m0 then reverse sigma2 else sigma2)
    ∧ w_min = (if fltb m1 m0 then squeezed_map (fsub fone) w0 else w0).
Proof.
  unfold orient. intros Ho. do 2 inv_bind Ho.
  apply index_Ok in Ha, Ha0. exists a0, a. split_and!; [done..| | |];
    destruct (fltb a a0); by inv_Ok.
Qed.
End table_properties.

Lemma length_pooled_by {A} (P : string → Prop) `{∀ n, Decision (P n)}
    (names : list string) (vals : list A) :
  length names = length vals →
  length (pooled_by P names vals) = length (filter P names).
Proof.
  unfold pooled_by. rewrite length_fmap. revert vals.
  induction names as [|n names IH]; intros [|a vals] Hlen;
    simpl in *; try done.
  rewrite !filter_cons. simpl. injection Hlen as Hlen.
  destruct (decide (P n)); simpl; by rewrite IH.
Qed.

Lemma length_bind_const {A B} (f : A → list B) (l : list A) (k : nat) :
  (∀ a, length (f a) = k) → length (l ≫= f) = (k * length l)%nat.
Proof.
  intros Hf. induction l as [|a l IH]; [simpl; lia|].
  rewrite bind_cons, length_app, Hf, IH. simpl. lia.
Qed.

Lemma length_pairwise_columns condition_names :
  length (pairwise_columns condition_names)
  = (3 * length (combinations2 condition_names))%nat.
Proof. unfold pairwise_columns. apply length_bind_const. by intros []. Qed.

Lemma length_one_vs_all_columns condition_names :
  length (one_vs_all_columns condition_names) = (3 * length condition_names)%nat.
Proof. unfold one_vs_all_columns. by apply length_bind_const. Qed.

(** The header, part by part. *)
Lemma get_result_table_header_parts cond2run_dict :
  get_result_table_header cond2run_dict
  = (["idx"; "position"; "kmer"; "mu_min"; "mu_max"; "sigma2_min";
      "sigma2_max"; "p_overlap"; "x_x1"; "y_x1"; "x_x2"; "y_x2"]
     ++ ((λ run_name, "w_min_" +:+ run_name) <$> run_names_of cond2run_dict)
     ++ ((λ run_name, "coverage_" +:+ run_name) <$> run_names_of cond2run_dict))
    ++ pairwise_columns (condition_names_of cond2run_dict)
    ++ (if bool_decide (2 < length (condition_names_of cond2run_dict))%nat
        then one_vs_all_columns (condition_names_of cond2run_dict)
        else []).
Proof.
  unfold get_result_table_header, condition_names_of, run_names_of,
    pairwise_columns, one_vs_all_columns.
  destruct (get_ordered_condition_run_names cond2run_dict) as [cn rn]. simpl.
  case_bool_decide; by rewrite ?app_nil_r, <- ?app_assoc.
Qed.

Lemma length_get_result_table_header cond2run_dict :
  length (get_result_table_header cond2run_dict)
  = (n_leading_columns (run_names_of cond2run_dict)
     + 3 * length (combinations2 (condition_names_of cond2run_dict))
     + (if bool_decide (2 < length (condition_names_of cond2run_dict))%nat
        then 3 * length (condition_names_of cond2run_dict) else 0))%nat.
Proof.
  rewrite get_result_table_header_parts. unfold n_leading_columns.
  rewrite !length_app, !length_fmap, length_pairwise_columns. simpl.
  case_bool_decide; rewrite ?length_one_vs_all_columns; simpl; lia.
Qed.

Section rows.
Context `{Stats}.

Lemma length_pairwise_statistics cond2run_dict names w0 coverage conds :
  length (pairwise_statistics cond2run_dict names w0 coverage conds)
  = (3 * length (combinations2 conds))%nat.
Proof. unfold pairwise_statistics. apply length_bind_const. by intros []. Qed.

Lemma length_one_vs_all_statistics cond2run_dict names w0 coverage conds :
  length (one_vs_all_statistics cond2run_dict names w0 coverage conds)
  = (3 * length conds)%nat.
Proof. unfold one_vs_all_statistics. by apply length_bind_const. Qed.

Lemma ordered_by_run_lengths w_min coverage names run_names ws cs :
  ordered_by_run w_min coverage names run_names = Ok (ws, cs) →
  (∀ run_name, run_name ∈ run_names →
     length (filter (λ n, n = run_name) names) = 1%nat) →
  length ws = length run_names ∧ length cs = length run_names.
Proof.
  revert ws cs.
  induction run_names as [|run_name rest IH]; intros ws cs Ho Hone;
    simpl in Ho.
  - by inv_Ok.
  - do 3 inv_bind Ho. inv_Ok. destruct a1 as [ws' cs'].
    destruct (IH _ _ Ha1) as [Hws Hcs].
    { intros r Hr. apply Hone. by right. }
    simpl. rewrite !length_app, Hws, Hcs.
    destruct w_min as [v|l]; [discriminate|]. simpl in Ha.
    apply select_Ok in Ha as [-> Hl], Ha0 as [-> Hc].
    rewrite !length_pooled_by, Hone by (done || left). done.
Qed.

(** What a successful row computation returns. *)
Lemma row_of_Ok cond2run_dict key model row :
  row_of cond2run_dict (condition_names_of cond2run_dict)
    (run_names_of cond2run_dict) key model = Ok row →
  ∃ m0 m1 w0,
    mu_tau_expected model !! 0%nat = Some m0
    ∧ mu_tau_expected model !! 1%nat = Some m1
    ∧ column_at 0 (w_expected model) = Ok w0
    ∧ row = row_layout cond2run_dict key model (fltb m1 m0) w0
    ∧ ((∀ run_name, run_name ∈ run_names_of cond2run_dict →
          length (filter (λ n, n = run_name) (x_group_names model)) = 1%nat) →
       length (per_run (x_group_names model)
                 (if fltb m1 m0 then fsub fone <$> w0 else w0)
                 (run_names_of cond2run_dict))
       = length (run_names_of cond2run_dict)
       ∧ length (per_run (x_group_names model) (coverage_of model)
                   (run_names_of cond2run_dict))
         = length (run_names_of cond2run_dict)).
Proof.
  unfold row_of. destruct key as [[idx position] kmer].
  intros Hr. do 3 inv_bind Hr.
  destruct (calc_prob_overlapping _ _) as [p_overlap cdf] eqn:Hov.
  do 3 inv_bind Hr. destruct a4 as [[mu' sigma2'] w_min].
  inv_bind Hr. destruct a4 as [ws cs].
  apply orient_Ok in Ha4 as (m0 & m1 & Hm0 & Hm1 & -> & -> & ->).
  pose proof (ordered_by_run_lengths _ _ _ _ _ _ Ha5) as Hlen.
  apply ordered_by_run_Ok in Ha5 as [-> ->].
  apply (stats_pairwise_of_Ok _ _ a1) in Ha2 as ->; [|done].
  assert (Hw : squeezed_list
                 (if fltb m1 m0 then squeezed_map (fsub fone) (squeeze a1)
                  else squeeze a1)
               = if fltb m1 m0 then fsub fone <$> a1 else a1).
  { destruct (fltb m1 m0);
      by rewrite ?squeezed_list_map, squeezed_list_squeeze. }
  rewrite Hw in Hlen.
  exists m0, m1, a1. split_and!; [done..| |done].
  unfold row_layout, sigma2_of, coverage_of. cbv zeta. rewrite Hov. simpl.
  rewrite Hw in Hr. clear Hw. unfold pairwise_statistics.
  case_bool_decide.
  - apply (stats_one_vs_all_of_Ok _ _ a1) in Ha3 as ->; [|done].
    injection Hr as <-.
    unfold one_vs_all_statistics.
    by repeat (progress (simpl; rewrite <- ?app_assoc)).
  - injection Hr as <-. rewrite app_nil_r.
    by repeat (progress (simpl; rewrite <- ?app_assoc)).
Qed.

Lemma rows_of_Ok cond2run_dict condition_names run_names models table :
  rows_of cond2run_dict condition_names run_names models = Ok table →
  Forall2 (λ km row, row_of cond2run_dict condition_names run_names
                       km.1 km.2 = Ok row) models table.
Proof.
  revert table. induction models as [|[key model] rest IH]; intros table Hr;
    simpl in Hr.
  - inv_Ok. constructor.
  - do 2 inv_bind Hr. inv_Ok. constructor; auto.
Qed.

(** Row [i] of the table is the row of model [i]. *)
Lemma generate_result_table_Ok models cond2run_dict table i key model row :
  generate_result_table models cond2run_dict = Ok table →
  models !! i = Some (key, model) →
  table !! i = Some row →
  row_of cond2run_dict (condition_names_of cond2run_dict)
    (run_names_of cond2run_dict) key model = Ok row.
Proof.
  unfold generate_result_table, condition_names_of, run_names_of.
  destruct (get_ordered_condition_run_names cond2run_dict) as [cn rn].
  intros Hg%rows_of_Ok Hm Ht.
  destruct (Forall2_lookup_l _ _ _ _ _ Hg Hm) as (row' & Hrow & Hok).
  simpl in *. congruence.
Qed.
End rows.

(** ** Result table: the claims *)

Example get_result_table_header_ex :
  get_result_table_header ex_cond2run
  = ["idx"; "position"; "kmer"; "mu_min"; "mu_max"; "sigma2_min";
     "sigma2_max"; "p_overlap"; "x_x1"; "y_x1"; "x_x2"; "y_x2";
     "w_min_run_a"; "w_min_run_b"; "coverage_run_a"; "coverage_run_b";
     "p_ws_c1_vs_c2"; "ws_mean_diff_c1_vs_c2"; "abs_z_score_c1_vs_c2"].
Proof. vm_compute. reflexivity. Qed.

Example generate_result_table_ex :
  @generate_result_table ex_stats [(ex_key, ex_fitted)] ex_cond2run
  = Ok [ex_row].
Proof. vm_compute. reflexivity. Qed.

(** A single group is squeezed to a zero-dimensional array, which the
    per-run mask cannot index. *)
Example generate_result_table_single_group :
  @generate_result_table ex_stats
    [(ex_key, {| mu_tau_expected := [f_half; f_one];
                 mu_tau_expected_gamma := [f_one; f_one];
                 w_expected := {| shape1 := 2; rows := [[f_one; f_zero]] |};
                 y_N := {| shape1 := 2; rows := [[f_one; f_one]] |};
                 x_group_names := ["run_a"] |})]
    {[ "c1" := ["run_a"] ]}
  = Raise IndexError.
Proof. vm_compute. reflexivity. Qed.

(** C2, amended: when the overlap routine returns four coordinates and every
    model has two components and lists each run of the mapping exactly once
    among its group names, every row of the table is as long as the header. *)
Theorem row_length_is_header_length `{Stats} models cond2run_dict table :
  (∀ mu sigma2, length (calc_prob_overlapping mu sigma2).2 = 4%nat) →
  (∀ key model, (key, model) ∈ models →
     length (mu_tau_expected model) = 2%nat
     ∧ length (mu_tau_expected_gamma model) = 2%nat
     ∧ ∀ run_name, run_name ∈ run_names_of cond2run_dict →
         length (filter (λ n, n = run_name) (x_group_names model)) = 1%nat) →
  generate_result_table models cond2run_dict = Ok table →
  ∀ row, row ∈ table →
    length row = length (get_result_table_header cond2run_dict).
Proof.
  intros Hov Hmodels Hg row Hrow.
  apply list_elem_of_lookup in Hrow as [i Hi].
  assert (∃ key model, models !! i = Some (key, model)) as (key & model & Hm).
  { unfold generate_result_table in Hg.
    destruct (get_ordered_condition_run_names cond2run_dict) as [cn rn].
    apply rows_of_Ok in Hg.
    destruct (Forall2_lookup_r _ _ _ _ _ Hg Hi) as ([key model] & ? & _).
    eauto. }
  pose proof (generate_result_table_Ok _ _ _ _ _ _ _ Hg Hm Hi) as Hr.
  apply row_of_Ok in Hr as (m0 & m1 & w0 & _ & _ & _ & -> & Hper).
  destruct (Hmodels key model) as (Hmu & Hgamma & Hone).
  { by eapply list_elem_of_lookup_2. }
  destruct (Hper Hone) as [Hw Hc].
  rewrite length_get_result_table_header. unfold row_layout, n_leading_columns.
  cbv zeta. rewrite !length_app, !length_fmap, Hw, Hc, Hov.
  rewrite length_pairwise_statistics.
  assert (length (if fltb m1 m0 then reverse (mu_tau_expected model)
                  else mu_tau_expected model) = 2%nat) as ->.
  { destruct (fltb m1 m0); by rewrite ?length_reverse. }
  assert (length (if fltb m1 m0 then reverse (sigma2_of model)
                  else sigma2_of model) = 2%nat) as ->.
  { unfold sigma2_of.
    destruct (fltb m1 m0); by rewrite ?length_reverse, length_fmap. }
  case_bool_decide; rewrite ?length_one_vs_all_statistics; simpl; lia.
Qed.

Lemma row_length_is_header_length_witness :
  length ex_row = length (get_result_table_header ex_cond2run).
Proof.
  apply (@row_length_is_header_length ex_stats [(ex_key, ex_fitted)]
           ex_cond2run [ex_row]).
  - reflexivity.
  - intros key model [= -> ->]%list_elem_of_singleton.
    split_and!; [reflexivity..|].
    intros run_name Hin. vm_compute in Hin.
    apply elem_of_cons in Hin as [->|Hin]; [reflexivity|].
    apply list_elem_of_singleton in Hin as ->. reflexivity.
  - vm_compute. reflexivity.
  - left.
Defined.

(** C2 as stated fails: for a mapping naming a run that is not among the
    model's group names the header has the run's two columns and the row
    has not. *)
Lemma row_length_counterexample :
  ∃ row,
    @generate_result_table ex_stats [(ex_key, ex_fitted)] ex_cond2run_extra
    = Ok [row]
    ∧ length row = 19%nat
    ∧ length (get_result_table_header ex_cond2run_extra) = 21%nat.
Proof. eexists. split_and!; vm_compute; reflexivity. Qed.

(** *** Orientation *)

Lemma SFcompare_antisym (a b : float) :
  SFcompare a b = CompOpp <$> SFcompare b a.
Proof.
  destruct a as [sa|sa| |sa ma ea], b as [sb|sb| |sb mb eb]; simpl;
    try reflexivity; try (by destruct sa); try (by destruct sb);
    try (by destruct sa, sb).
  destruct sa, sb; simpl; try reflexivity;
    rewrite (Z.compare_antisym ea eb); destruct (ea ?= eb)%Z; simpl;
    try reflexivity;
    rewrite (Pos.compare_cont_antisym mb ma Eq); simpl;
    by destruct (Pos.compare_cont Eq ma mb).
Qed.

Lemma SFcompare_numbers (a b : float) :
  is_number a → is_number b → ∃ c, SFcompare a b = Some c.
Proof. unfold is_number. destruct a, b; simpl; intros; by eauto. Qed.

(** Between numbers, "not below" is "above or equal". *)
Lemma fltb_false_fleb (a b : float) :
  is_number a → is_number b → fltb b a = false → fleb a b = true.
Proof.
  unfold fltb, fleb, SFltb, SFleb. intros Ha Hb.
  rewrite (SFcompare_antisym a b).
  destruct (SFcompare_numbers b a Hb Ha) as [c ->]. by destruct c.
Qed.

Lemma fltb_true_fleb (a b : float) : fltb a b = true → fleb a b = true.
Proof. unfold fltb, fleb, SFltb, SFleb. by destruct (SFcompare a b) as [[]|]. Qed.

(** C3, amended: the row of a two-component model starts with the key, the
    two means, the two variances, the overlap probability and coordinates
    and the per-run weights.  When the second mean is below the first the
    means and variances are reported in reverse order and the weights are
    [1 - w[:,0]]; otherwise they are reported as they are and the weights
    are [w[:,0]].  If neither mean is NaN the reported means satisfy
    [mu_min <= mu_max]. *)
Theorem row_orientation `{Stats} models cond2run_dict table i idx position
    kmer model row m0 m1 g0 g1 :
  generate_result_table models cond2run_dict = Ok table →
  models !! i = Some ((idx, position, kmer), model) →
  table !! i = Some row →
  mu_tau_expected model = [m0; m1] →
  mu_tau_expected_gamma model = [g0; g1] →
  let swapped := fltb m1 m0 in
  let mu_min := if swapped then m1 else m0 in
  let mu_max := if swapped then m0 else m1 in
  let sigma2_min := fdiv fone (if swapped then g1 else g0) in
  let sigma2_max := fdiv fone (if swapped then g0 else g1) in
  let overlap := calc_prob_overlapping [m0; m1] [fdiv fone g0; fdiv fone g1] in
  (∃ w0 rest,
     column_at 0 (w_expected model) = Ok w0
     ∧ row = [CStr idx; CPos position; CText kmer;
              CFloat mu_min; CFloat mu_max;
              CFloat sigma2_min; CFloat sigma2_max; CFloat overlap.1]
             ++ (CFloat <$> overlap.2)
             ++ (CFloat <$> per_run (x_group_names model)
                              (if swapped then fsub fone <$> w0 else w0)
                              (run_names_of cond2run_dict))
             ++ rest)
  ∧ (is_number m0 → is_number m1 → fleb mu_min mu_max = true).
Proof.
  intros Hg Hm Hi Hmu Hgamma. cbv zeta. split.
  - pose proof (generate_result_table_Ok _ _ _ _ _ _ _ Hg Hm Hi) as Hr.
    apply row_of_Ok in Hr as (m0' & m1' & w0 & Hm0 & Hm1 & Hw & -> & _).
    rewrite Hmu in Hm0, Hm1. simpl in Hm0, Hm1. simplify_eq.
    exists w0. eexists. split; [done|].
    unfold row_layout, sigma2_of. cbv zeta. rewrite Hmu, Hgamma. simpl.
    destruct (fltb m1' m0'); simpl; rewrite <- ?app_assoc; reflexivity.
  - intros Hn0 Hn1. destruct (fltb m1 m0) eqn:Hlt.
    + by apply fltb_true_fleb.
    + by apply fltb_false_fleb.
Qed.

Lemma row_orientation_witness :
  (∃ w0 rest,
     column_at 0 (w_expected ex_fitted) = Ok w0
     ∧ ex_row = [CStr "gene"; CPos (PosInt 7); CText (Str "AACGT");
                 CFloat f_half; CFloat f_one;
                 CFloat (fdiv fone f_half); CFloat (fdiv fone f_one);
                 CFloat f_half]
                ++ (CFloat <$> [f_zero; f_zero; f_one; f_one])
                ++ (CFloat <$> per_run ["run_a"; "run_b"]
                                 (fsub fone <$> w0) (run_names_of ex_cond2run))
                ++ rest)
  ∧ (is_number f_one → is_number f_half → fleb f_half f_one = true).
Proof.
  apply (@row_orientation ex_stats [(ex_key, ex_fitted)] ex_cond2run [ex_row]
           0%nat "gene" (PosInt 7) (Str "AACGT") ex_fitted ex_row
           f_one f_half f_one f_half);
    reflexivity.
Defined.

(** C3 as stated fails: with an undefined first mean nothing is swapped and
    the reported pair is not ordered. *)
Lemma row_orientation_counterexample :
  ∃ row mu_min mu_max,
    @generate_result_table ex_stats [(ex_key, ex_fitted_nan)] ex_cond2run
    = Ok [row]
    ∧ row !! 3%nat = Some (CFloat mu_min)
    ∧ row !! 4%nat = Some (CFloat mu_max)
    ∧ fleb mu_min mu_max = false.
Proof. eexists _, _, _. split_and!; vm_compute; reflexivity. Qed.

(** *** Pairwise and one-vs-all statistics *)

(** C4: in the row of a model the pairwise statistics are, for each
    unordered pair of conditions in order, the p-value of the test, the
    absolute difference of the pooled mean weights and the absolute z-score,
    all computed from [w[:,0]] as the model gives it, whether or not the
    components were swapped for the other columns, pooled over the groups
    named among the runs of each condition together with their coverage.
    The triples sit right before the one-vs-all entries, which end the row. *)
Theorem pairwise_statistics_from_raw_weights `{Stats} models cond2run_dict
    table i key model row :
  generate_result_table models cond2run_dict = Ok table →
  models !! i = Some (key, model) →
  table !! i = Some row →
  ∃ w0 before,
    column_at 0 (w_expected model) = Ok w0
    ∧ row = before
            ++ pairwise_statistics cond2run_dict (x_group_names model) w0
                 (coverage_of model) (condition_names_of cond2run_dict)
            ++ (if bool_decide (2 < length (condition_names_of cond2run_dict))%nat
                then one_vs_all_statistics cond2run_dict (x_group_names model)
                       w0 (coverage_of model)
                       (condition_names_of cond2run_dict)
                else []).
Proof.
  intros Hg Hm Hi.
  pose proof (generate_result_table_Ok _ _ _ _ _ _ _ Hg Hm Hi) as Hr.
  apply row_of_Ok in Hr as (m0 & m1 & w0 & _ & _ & Hw & -> & _).
  exists w0. eexists. split; [done|]. unfold row_layout. reflexivity.
Qed.

(** In [ex_fitted] the components are swapped: the per-run weight of
    [run_b] is reported as [1 - 0.5] and that of [run_a] as [1 - 1], while
    the pairwise entries are computed from the weights [1] and [0.5]. *)
Lemma pairwise_statistics_from_raw_weights_witness :
  ∃ w0 before,
    column_at 0 (w_expected ex_fitted) = Ok w0
    ∧ ex_row = before
               ++ @pairwise_statistics ex_stats ex_cond2run ["run_a"; "run_b"]
                    w0 (@coverage_of ex_stats ex_fitted)
                    (condition_names_of ex_cond2run)
               ++ (if bool_decide
                        (2 < length (condition_names_of ex_cond2run))%nat
                   then @one_vs_all_statistics ex_stats ex_cond2run
                          ["run_a"; "run_b"] w0
                          (@coverage_of ex_stats ex_fitted)
                          (condition_names_of ex_cond2run)
                   else []).
Proof.
  apply (@pairwise_statistics_from_raw_weights ex_stats [(ex_key, ex_fitted)]
           ex_cond2run [ex_row] 0%nat ex_key ex_fitted ex_row);
    reflexivity.
Defined.

Example pairwise_statistics_ex :
  @pairwise_statistics ex_stats ex_cond2run ["run_a"; "run_b"] [f_one; f_half]
    (@coverage_of ex_stats ex_fitted) (condition_names_of ex_cond2run)
  = [CFloat f_half; CFloat f_half; CFloat f_one].
Proof. vm_compute. reflexivity. Qed.

(** C8: the header ends with the one-vs-all columns, and every row with the
    one-vs-all statistics, when there are more than two condition names;
    otherwise both end with the pairwise part. *)
Theorem one_vs_all_iff_more_than_two_conditions `{Stats} cond2run_dict :
  let condition_names := condition_names_of cond2run_dict in
  (∃ common tail,
     get_result_table_header cond2run_dict
     = common ++ pairwise_columns condition_names ++ tail
     ∧ length common = n_leading_columns (run_names_of cond2run_dict)
     ∧ ((2 < length condition_names)%nat →
          tail = one_vs_all_columns condition_names ∧ tail ≠ [])
     ∧ (¬ (2 < length condition_names)%nat → tail = []))
  ∧ (∀ models table i key model row,
       generate_result_table models cond2run_dict = Ok table →
       models !! i = Some (key, model) →
       table !! i = Some row →
       ∃ w0 common tail,
         column_at 0 (w_expected model) = Ok w0
         ∧ row = common
                 ++ pairwise_statistics cond2run_dict (x_group_names model)
                      w0 (coverage_of model) condition_names
                 ++ tail
         ∧ ((2 < length condition_names)%nat →
              tail = one_vs_all_statistics cond2run_dict
                       (x_group_names model) w0 (coverage_of model)
                       condition_names
              ∧ tail ≠ [])
         ∧ (¬ (2 < length condition_names)%nat → tail = [])).
Proof.
  cbv zeta. split.
  - eexists _, _. split; [apply get_result_table_header_parts|].
    split_and!.
    + unfold n_leading_columns. rewrite !length_app, !length_fmap. simpl. lia.
    + intros Hn. rewrite bool_decide_eq_true_2 by done. split; [done|].
      intros Hnil%(f_equal length).
      rewrite length_one_vs_all_columns in Hnil. simpl in Hnil. lia.
    + intros Hn. by rewrite bool_decide_eq_false_2.
  - intros models table i key model row Hg Hm Hi.
    pose proof (generate_result_table_Ok _ _ _ _ _ _ _ Hg Hm Hi) as Hr.
    apply row_of_Ok in Hr as (m0 & m1 & w0 & _ & _ & Hw & -> & _).
    exists w0. eexists _, _. split; [done|].
    split; [unfold row_layout; reflexivity|]. split.
    + intros Hn. rewrite bool_decide_eq_true_2 by done. split; [done|].
      intros Hnil%(f_equal length).
      rewrite length_one_vs_all_statistics in Hnil. simpl in Hnil. lia.
    + intros Hn. by rewrite bool_decide_eq_false_2.
Qed.

Example get_result_table_header_three_conditions :
  drop 27 (get_result_table_header ex_cond2run3)
  = ["p_ws_c1_vs_all"; "ws_mean_diff_c1_vs_all"; "abs_z_score_c1_vs_all";
     "p_ws_c2_vs_all"; "ws_mean_diff_c2_vs_all"; "abs_z_score_c2_vs_all";
     "p_ws_c3_vs_all"; "ws_mean_diff_c3_vs_all"; "abs_z_score_c3_vs_all"]
  ∧ length (get_result_table_header ex_cond2run3) = 36%nat.
Proof. split; vm_compute; reflexivity. Qed.

Example generate_result_table_three_conditions :
  ∃ row,
    @generate_result_table ex_stats [(ex_key, ex_fitted3)] ex_cond2run3
    = Ok [row]
    ∧ length row = 36%nat
    ∧ drop 27 row
      = @one_vs_all_statistics ex_stats ex_cond2run3 ["run_a"; "run_b"; "run_c"]
          [f_one; f_half; f_zero] (@coverage_of ex_stats ex_fitted3)
          ["c1"; "c2"; "c3"].
Proof. eexists. split_and!; vm_compute; reflexivity. Qed.

(** ** Model store: what [save_models] writes *)

Lemma mapM_Ok {A B} (f : A → result B) (l : list A) (k : list B) :
  mapM (M := result) f l = Ok k → Forall2 (λ a b, f a = Ok b) l k.
Proof.
  revert k. induction l as [|a l IH]; intros k Hm; simpl in Hm.
  - inv_Ok. constructor.
  - do 2 inv_bind Hm. inv_Ok. constructor; auto.
Qed.










Lemma file_lookup_insert (model_file : h5file) idx position g idx' position' :
  file_lookup
    (<[idx := <[position := g]> (default ∅ (model_file !! idx))]> model_file)
    idx' position'
  = if decide (idx = idx' ∧ position = position') then Some g
    else file_lookup model_file idx' position'.
Proof.
  unfold file_lookup. destruct (decide (idx = idx')) as [<-|Hne].
  - rewrite lookup_insert_eq. simpl.
    destruct (decide (position = position')) as [<-|Hp].
    + rewrite lookup_insert_eq. by rewrite decide_True.
    + rewrite lookup_insert_ne by done. rewrite decide_False by tauto.
      destruct (model_file !! idx); simpl; [done|]. apply lookup_empty.
  - rewrite lookup_insert_ne by done. by rewrite decide_False by tauto.
Qed.

Lemma save_models_into_Ok model_file models saved :
  save_models_into model_file models = Ok saved →
  (∀ idx position g, file_lookup model_file idx position = Some g →
     file_lookup saved idx position = Some g)
  ∧ ∀ idx position kmer model,
      ((idx, position, kmer), model) ∈ models →
      ∃ g, file_lookup saved idx (str position) = Some g
        ∧ encode kmer = Ok (attr_kmer g)
        ∧ save_nodes ∅ (nodes model) = Ok (group_nodes g).
Proof.
  revert model_file.
  induction models as [|[[[idx position] kmer] model] rest IH];
    intros model_file Hs; simpl in Hs.
  - inv_Ok. split; [done|]. by intros ? ? ? ? ?%elem_of_nil.
  - destruct (default ∅ (model_file !! idx) !! str position) eqn:Hfresh;
      [discriminate|].
    do 3 inv_bind Hs. destruct (IH _ Hs) as [Hkeep Hrest]. split.
    + intros idx' position' g Hg. apply Hkeep. rewrite file_lookup_insert.
      rewrite decide_False; [done|]. intros [<- <-].
      unfold file_lookup in Hg. destruct (model_file !! idx); simpl in *;
        congruence.
    + intros i p k m [[= -> -> -> ->]|Hin]%elem_of_cons; [|by apply Hrest].
      eexists. split; [|split].
      * apply Hkeep. rewrite file_lookup_insert. by rewrite decide_True.
      * done.
      * done.
Qed.

(** ** Model store: what [load_models] reads *)

Lemma load_params_other inits node_name leaves inits' n :
  load_params inits node_name leaves = Ok inits' →
  n ≠ node_name → inits' !! n = inits !! n.
Proof.
  revert inits. induction leaves as [|[param_name d] rest IH];
    intros inits Hl Hne; simpl in Hl.
  - by inv_Ok.
  - do 2 inv_bind Hl. rewrite (IH _ Hl Hne). by rewrite lookup_insert_ne.
Qed.

Lemma load_params_keeps inits node_name leaves inits' ps p v :
  load_params inits node_name leaves = Ok inits' →
  inits !! node_name = Some ps → ps !! p = Some v → p ∉ leaves.*1 →
  ∃ ps', inits' !! node_name = Some ps' ∧ ps' !! p = Some v.
Proof.
  revert inits ps. induction leaves as [|[param_name d] rest IH];
    intros inits ps Hl Hps Hp Hnot; simpl in Hl.
  - inv_Ok. eauto.
  - do 2 inv_bind Hl. inv_Ok. simpl in Hnot.
    apply not_elem_of_cons in Hnot as [Hne Hnot].
    eapply (IH _ _ Hl); [apply lookup_insert_eq| |done].
    rewrite lookup_insert_ne by done. congruence.
Qed.

Lemma load_params_Ok inits node_name leaves inits' p d :
  load_params inits node_name leaves = Ok inits' →
  NoDup leaves.*1 → (p, d) ∈ leaves →
  ∃ ps v, inits' !! node_name = Some ps ∧ ps !! p = Some v
    ∧ read_dataset d = Ok v.
Proof.
  revert inits. induction leaves as [|[param_name d'] rest IH];
    intros inits Hl Hnd Hin; simpl in Hl.
  - by apply elem_of_nil in Hin.
  - do 2 inv_bind Hl. simpl in Hnd. apply NoDup_cons in Hnd as [Hfresh Hnd].
    apply elem_of_cons in Hin as [[= -> ->]|Hin].
    + destruct (load_params_keeps _ _ _ _ _ param_name a Hl
                  (lookup_insert_eq _ _ _)) as (ps' & ? & ?);
        [apply lookup_insert_eq | done | eauto].
    + by apply (IH _ Hl).
Qed.

Lemma load_nodes_other inits stored inits' n :
  load_nodes inits stored = Ok inits' →
  n ∉ stored.*1 → inits' !! n = inits !! n.
Proof.
  revert inits. induction stored as [|[node_name leaves] rest IH];
    intros inits Hl Hnot; simpl in Hl.
  - by inv_Ok.
  - inv_bind Hl. simpl in Hnot. apply not_elem_of_cons in Hnot as [Hne Hnot].
    rewrite (IH _ Hl Hnot). by eapply load_params_other.
Qed.

Lemma load_nodes_Ok inits stored inits' node_name leaves p d :
  load_nodes inits stored = Ok inits' →
  NoDup stored.*1 → (node_name, leaves) ∈ stored → leaves !! p = Some d →
  ∃ ps v, inits' !! node_name = Some ps ∧ ps !! p = Some v
    ∧ read_dataset d = Ok v.
Proof.
  revert inits. induction stored as [|[n l] rest IH];
    intros inits Hl Hnd Hin Hp; simpl in Hl.
  - by apply elem_of_nil in Hin.
  - inv_bind Hl. simpl in Hnd. apply NoDup_cons in Hnd as [Hfresh Hnd].
    apply elem_of_cons in Hin as [[= -> ->]|Hin].
    + destruct (load_params_Ok _ _ _ _ p d Ha) as (ps & v & Hps & Hv & Hr).
      { apply NoDup_fst_map_to_list. }
      { by apply elem_of_map_to_list. }
      exists ps, v. split_and!; [|done..].
      by rewrite (load_nodes_other _ _ _ _ Hl Hfresh).
    + by apply (IH _ Hl).
Qed.

Lemma load_params_dom inits node_name leaves inits' n :
  load_params inits node_name leaves = Ok inits' →
  is_Some (inits' !! n) → is_Some (inits !! n).
Proof.
  revert inits. induction leaves as [|[param_name d] rest IH];
    intros inits Hl Hn; simpl in Hl.
  - by inv_Ok.
  - do 2 inv_bind Hl. inv_Ok. apply (IH _ Hl) in Hn.
    destruct (decide (n = node_name)) as [->|Hne]; [by eexists|].
    by rewrite lookup_insert_ne in Hn.
Qed.

Lemma load_nodes_dom inits stored inits' n :
  load_nodes inits stored = Ok inits' →
  is_Some (inits' !! n) → is_Some (inits !! n).
Proof.
  revert inits. induction stored as [|[node_name leaves] rest IH];
    intros inits Hl Hn; simpl in Hl.
  - by inv_Ok.
  - inv_bind Hl. apply (IH _ Hl) in Hn. by eapply load_params_dom.
Qed.

Lemma inits_nodes_vocabulary n :
  is_Some (inits_nodes !! n) → n ∈ node_vocabulary.
Proof.
  unfold inits_nodes. intros [ps Hps].
  apply elem_of_list_to_map_2 in Hps.
  apply list_elem_of_fmap in Hps as (name & [= -> _] & Hin). done.
Qed.

Lemma elem_of_stored_groups (model_file : h5file) idx position g :
  (idx, position, g)
    ∈ ('(idx, under_idx) ← map_to_list model_file;
       (λ e, (idx, e.1, e.2)) <$> map_to_list under_idx)
  ↔ file_lookup model_file idx position = Some g.
Proof.
  unfold file_lookup. rewrite list_elem_of_bind. split.
  - intros ([i u] & Hin & Hu). apply elem_of_map_to_list in Hu.
    apply list_elem_of_fmap in Hin as ([p g'] & [= -> -> ->] & Hp).
    apply elem_of_map_to_list in Hp. by rewrite Hu.
  - destruct (model_file !! idx) as [u|] eqn:Hu; simpl; [|done].
    intros Hp. exists (idx, u). split; [|by apply elem_of_map_to_list].
    apply list_elem_of_fmap. exists (position, g). split; [done|].
    by apply elem_of_map_to_list.
Qed.

Lemma load_models_Ok api model_file loaded idx position g :
  load_models api model_file = Ok loaded →
  file_lookup model_file idx position = Some g →
  ∃ inits,
    load_nodes inits_nodes (map_to_list (group_nodes g)) = Ok inits
    ∧ ((idx, PosStr position, read_attr api (attr_kmer g)), GMM_of_inits inits)
        ∈ loaded.
Proof.
  unfold load_models. intros Hl%mapM_Ok Hg%elem_of_stored_groups.
  apply list_elem_of_lookup in Hg as [i Hi].
  destruct (Forall2_lookup_l _ _ _ _ _ Hl Hi) as ([key model] & Hk & Hload).
  unfold load_position in Hload. inv_bind Hload. inv_Ok.
  exists a. split; [done|]. by eapply list_elem_of_lookup_2.
Qed.


(** ** [load_data] returns *)

Lemma gather_returns data_dict idx pos kmer zipped acc :
  (∀ run_name, run_name ∈ zipped.*2 → present data_dict run_name idx pos kmer) →
  is_Ok (gather data_dict idx pos kmer zipped acc).
Proof.
  revert acc. induction zipped as [|[condition_name run_name] rest IH];
    intros acc Hp; simpl.
  - by eexists.
  - destruct (Hp run_name) as (d_run & d_idx & d_pos & rec & H1 & H2 & H3 & H4);
      [left|].
    unfold getitem. rewrite H1. simpl. rewrite H2. simpl. rewrite H3. simpl.
    rewrite H4. simpl. apply IH. intros r Hr. apply Hp. by right.
Qed.

Lemma load_groups_returns data_dict idx condition_names run_names min_count
    max_count pooling pairs :
  (∀ pos kmer run_name, (pos, kmer) ∈ pairs → run_name ∈ run_names →
     present data_dict run_name idx pos kmer) →
  is_Ok (load_groups data_dict idx condition_names run_names min_count
           max_count pooling pairs).
Proof.
  induction pairs as [|[pos kmer] rest IH]; intros Hp; simpl.
  - by eexists.
  - destruct (gather_returns data_dict idx pos kmer
                (zip condition_names run_names) gathered_nil) as [g ->].
    { intros r Hr. apply (Hp pos kmer); [left|].
      apply list_elem_of_fmap in Hr as ([c r'] & -> & Hin).
      by apply elem_of_zip_r in Hin. }
    simpl. destruct IH as [more ->].
    { intros p k r Hin. apply Hp. by right. }
    simpl. destruct (make_group _ _ _ _ _ g); by eexists.
Qed.

Lemma collect_pairs_returns data_dict idx run_names :
  (∀ run_name, run_name ∈ run_names →
     ∃ d_run d_idx, data_dict !! run_name = Some d_run
                    ∧ d_run !! idx = Some d_idx) →
  is_Ok (collect_pairs data_dict idx run_names).
Proof.
  induction run_names as [|run_name rest IH]; intros Hp; simpl.
  - by eexists.
  - destruct (Hp run_name) as (d_run & d_idx & H1 & H2); [left|].
    unfold getitem. rewrite H1. simpl. rewrite H2. simpl.
    destruct IH as [more ->]; [|by eexists].
    intros r Hr. apply Hp. by right.
Qed.

(** With at least one run, each holding the target, [load_data] returns:
    groups are left out, never refused. *)
Lemma load_data_returns idx data_dict condition_names run_names min_count
    max_count pooling :
  run_names ≠ [] →
  (∀ run_name, run_name ∈ run_names →
     ∃ d_run d_idx, data_dict !! run_name = Some d_run
                    ∧ d_run !! idx = Some d_idx) →
  is_Ok (load_data idx data_dict condition_names run_names min_count
           max_count pooling).
Proof.
  intros Hne Hruns. unfold load_data.
  destruct (collect_pairs_returns _ _ _ Hruns) as [per_run Hc]. rewrite Hc.
  simpl. destruct per_run as [|first more] eqn:Hper.
  { apply collect_pairs_Ok, Forall2_length in Hc. by destruct run_names. }
  rewrite <- Hper in *. clear Hper first more.
  destruct (intersect_pairs per_run) as [s|e] eqn:Hs.
  - simpl. apply load_groups_returns. intros pos kmer run_name Hin Hr.
    apply elem_of_elements in Hin.
    by apply (intersect_pairs_Ok _ _ _ _ _ _ _ Hc Hs).
  - exfalso. unfold intersect_pairs in Hs. destruct per_run; [|done].
    apply collect_pairs_Ok, Forall2_length in Hc. by destruct run_names.
Qed.

(** ** [generate_result_table] returns *)

Lemma select_returns {A} mask (l : list A) :
  length mask = length l →
  ∃ sel, select mask l = Ok sel ∧ ∀ a, a ∈ sel → a ∈ l.
Proof.
  revert l. induction mask as [|b mask IH]; intros [|a l] Hlen; simpl in *;
    try discriminate.
  - exists []. split; [done|]. by intros ? ?%elem_of_nil.
  - destruct (IH l) as (sel & -> & Hsub); [congruence|]. simpl.
    destruct b; eexists; (split; [done|]).
    + intros a' [->|?]%elem_of_cons; [left | right; auto].
    + intros a' ?. right. auto.
Qed.

Lemma mapM_index_returns (l : list (list float)) j n :
  Forall (λ row, length row = n) l → (j < n)%nat →
  ∃ v, mapM (M := result) (λ row, index row j) l = Ok v
       ∧ length v = length l.
Proof.
  intros Hl Hj. induction Hl as [|row l Hrow _ (v & IH & Hlen)].
  - by exists [].
  - destruct (lookup_lt_is_Some_2 row j) as [x Hx]; [lia|].
    assert (Hidx : index row j = Ok x) by (by apply index_Ok).
    exists (x :: v). split; [|simpl; by rewrite Hlen].
    cbn -[index]. rewrite Hidx. cbn -[index]. by rewrite IH.
Qed.

Lemma column_at_returns j m :
  matrix_wf m → (j < shape1 m)%nat →
  ∃ v, column_at j m = Ok v ∧ length v = length (rows m).
Proof.
  intros Hwf Hj. unfold column_at. rewrite bool_decide_eq_true_2 by done.
  by eapply mapM_index_returns.
Qed.

Lemma select_column_returns mask j m :
  matrix_wf m → (j < shape1 m)%nat → length mask = length (rows m) →
  is_Ok (select_column mask j m).
Proof.
  intros Hwf Hj Hlen. unfold select_column.
  destruct (select_returns mask (rows m) Hlen) as (sel & -> & Hsub). simpl.
  destruct (column_at_returns j {| shape1 := shape1 m; rows := sel |})
    as (v & -> & _); [|done|by eexists].
  unfold matrix_wf in *. simpl. rewrite Forall_forall in Hwf.
  apply Forall_forall. auto.
Qed.

Lemma elem_of_combinations2 {A} (l : list A) a b :
  (a, b) ∈ combinations2 l → a ∈ l ∧ b ∈ l.
Proof.
  induction l as [|x l IH]; simpl; [by intros ?%elem_of_nil|].
  intros [Hin|Hin]%elem_of_app.
  - apply list_elem_of_fmap in Hin as (y & [= -> ->] & Hy).
    split; [left | by right].
  - destruct (IH Hin). split; by right.
Qed.

Lemma elem_of_condition_names_of cond2run_dict c :
  c ∈ condition_names_of cond2run_dict → is_Some (cond2run_dict !! c).
Proof.
  unfold condition_names_of, get_ordered_condition_run_names. simpl.
  rewrite elem_of_sorted_set. intros Hin.
  apply list_elem_of_fmap in Hin as ([c' runs] & -> & Hin).
  apply elem_of_map_to_list in Hin. by eexists.
Qed.

Section returns.
Context `{Stats}.

Lemma stats_pairwise_of_returns cond2run_dict w coverage names pairs :
  matrix_wf w → (1 ≤ shape1 w)%nat →
  length (rows w) = length names → length coverage = length names →
  (∀ c1 c2, (c1, c2) ∈ pairs →
     is_Some (cond2run_dict !! c1) ∧ is_Some (cond2run_dict !! c2)) →
  is_Ok (stats_pairwise_of cond2run_dict w coverage names pairs).
Proof.
  intros Hwf Hs Hw Hc. induction pairs as [|[c1 c2] rest IH]; intros Hp; simpl.
  - by eexists.
  - destruct (Hp c1 c2) as [[runs1 H1] [runs2 H2]]; [left|].
    unfold getitem. rewrite H1, H2. simpl.
    destruct (select_column_returns (isin names runs1) 0 w) as [? ->];
      [done | lia | by unfold isin; rewrite length_fmap |]. simpl.
    destruct (select_column_returns (isin names runs2) 0 w) as [? ->];
      [done | lia | by unfold isin; rewrite length_fmap |]. simpl.
    destruct (select_returns (isin names runs1) coverage) as (? & -> & _);
      [by unfold isin; rewrite length_fmap|]. simpl.
    destruct (select_returns (isin names runs2) coverage) as (? & -> & _);
      [by unfold isin; rewrite length_fmap|]. simpl.
    destruct IH as [? ->]; [|by eexists].
    intros ? ? ?. apply Hp. by right.
Qed.

Lemma stats_one_vs_all_of_returns cond2run_dict w coverage names conds :
  matrix_wf w → (1 ≤ shape1 w)%nat →
  length (rows w) = length names → length coverage = length names →
  (∀ c, c ∈ conds → is_Some (cond2run_dict !! c)) →
  is_Ok (stats_one_vs_all_of cond2run_dict w coverage names conds).
Proof.
  intros Hwf Hs Hw Hc. induction conds as [|c rest IH]; intros Hp; simpl.
  - by eexists.
  - destruct (Hp c) as [runs1 H1]; [left|].
    unfold getitem. rewrite H1. simpl.
    destruct (select_column_returns (isin names runs1) 0 w) as [? ->];
      [done | lia | by unfold isin; rewrite length_fmap |]. simpl.
    destruct (select_column_returns (negb <$> isin names runs1) 0 w) as [? ->];
      [done | lia | by unfold isin; rewrite !length_fmap |]. simpl.
    destruct (select_returns (isin names runs1) coverage) as (? & -> & _);
      [by unfold isin; rewrite length_fmap|]. simpl.
    destruct (select_returns (negb <$> isin names runs1) coverage)
      as (? & -> & _); [by unfold isin; rewrite !length_fmap|]. simpl.
    destruct IH as [? ->]; [|by eexists].
    intros ? ?. apply Hp. by right.
Qed.

Lemma ordered_by_run_returns w_min coverage names run_names :
  (run_names = [] ∨ ∃ l, w_min = Arr1 l ∧ length l = length names) →
  length coverage = length names →
  is_Ok (ordered_by_run w_min coverage names run_names).
Proof.
  intros Hw Hc. induction run_names as [|run_name rest IH]; simpl.
  - by eexists.
  - destruct Hw as [?|(l & -> & Hl)]; [done|]. simpl.
    destruct (select_returns (isin1 names run_name) l) as (? & -> & _);
      [by unfold isin1; rewrite length_fmap|]. simpl.
    destruct (select_returns (isin1 names run_name) coverage) as (? & -> & _);
      [by unfold isin1; rewrite length_fmap|]. simpl.
    destruct IH as [? ->]; [right; eauto | by eexists].
Qed.

Lemma row_of_returns cond2run_dict key model :
  fitted_wf (run_names_of cond2run_dict) model →
  is_Ok (row_of cond2run_dict (condition_names_of cond2run_dict)
           (run_names_of cond2run_dict) key model).
Proof.
  intros (Hmu & Hww & Hnw & Hw1 & Hn2 & Hwl & Hnl & Hsq).
  unfold row_of. destruct key as [[idx position] kmer].
  destruct (column_at_returns 0 (y_N model)) as (N0 & -> & _); [done|lia|].
  destruct (column_at_returns 1 (y_N model)) as (N1 & -> & _); [done|lia|].
  destruct (column_at_returns 0 (w_expected model)) as (w0 & -> & Hw0);
    [done|lia|]. simpl.
  destruct (calc_prob_overlapping _ _) as [p_overlap cdf].
  assert (Hcov : length (numpy_sum <$> rows (y_N model))
                 = length (x_group_names model)) by by rewrite length_fmap.
  destruct (stats_pairwise_of_returns cond2run_dict (w_expected model)
              (numpy_sum <$> rows (y_N model)) (x_group_names model)
              (combinations2 (condition_names_of cond2run_dict)))
    as [pairwise ->]; [done..| |].
  { intros c1 c2 [? ?]%elem_of_combinations2.
    split; by apply elem_of_condition_names_of. }
  simpl.
  assert (is_Ok (if bool_decide (2 < length (condition_names_of cond2run_dict))%nat
                 then stats_one_vs_all_of cond2run_dict (w_expected model)
                        (numpy_sum <$> rows (y_N model)) (x_group_names model)
                        (condition_names_of cond2run_dict)
                 else Ok [])) as [one_vs_all ->].
  { case_bool_decide; [|by eexists].
    apply stats_one_vs_all_of_returns; try done.
    intros c. apply elem_of_condition_names_of. }
  simpl. unfold orient.
  destruct (lookup_lt_is_Some_2 (mu_tau_expected model) 1) as [m1 Hm1]; [lia|].
  destruct (lookup_lt_is_Some_2 (mu_tau_expected model) 0) as [m0 Hm0]; [lia|].
  unfold index. rewrite Hm1, Hm0. simpl.
  assert (∀ f, is_Ok (ordered_by_run (squeezed_map f (squeeze w0))
                        (numpy_sum <$> rows (y_N model)) (x_group_names model)
                        (run_names_of cond2run_dict))) as Hord.
  { intros f. apply ordered_by_run_returns; [|done].
    destruct Hsq as [?|Hsq]; [by left|]. right.
    exists (f <$> w0). rewrite length_fmap. split; [|congruence].
    destruct w0 as [|? [|? ?]]; simpl in *; try done. congruence. }
  assert (is_Ok (ordered_by_run (squeeze w0)
                   (numpy_sum <$> rows (y_N model)) (x_group_names model)
                   (run_names_of cond2run_dict))) as Hord'.
  { apply ordered_by_run_returns; [|done].
    destruct Hsq as [?|Hsq]; [by left|]. right.
    exists w0. split; [|congruence].
    destruct w0 as [|? [|? ?]]; simpl in *; try done. congruence. }
  destruct (fltb m1 m0); simpl.
  - destruct (Hord (fsub fone)) as [[ws cs] ->]. simpl.
    case_bool_decide; by eexists.
  - destruct Hord' as [[ws cs] ->]. simpl.
    case_bool_decide; by eexists.
Qed.

(** Well-formed models always get their rows. *)
Lemma generate_result_table_returns models cond2run_dict :
  (∀ key model, (key, model) ∈ models →
     fitted_wf (run_names_of cond2run_dict) model) →
  ∃ table, generate_result_table models cond2run_dict = Ok table
           ∧ length table = length models.
Proof.
  unfold generate_result_table.
  pose proof (row_of_returns cond2run_dict) as Hrow.
  unfold condition_names_of, run_names_of in *.
  destruct (get_ordered_condition_run_names cond2run_dict) as [cn rn].
  simpl in *. induction models as [|[key model] rest IH]; intros Hwf; simpl.
  - by exists [].
  - destruct (Hrow key model) as [row ->]; [apply (Hwf key); left|]. simpl.
    destruct IH as (table & -> & Hlen).
    { intros k m Hin. apply (Hwf k m). by right. }
    simpl. eexists. split; [done|]. simpl. by rewrite Hlen.
Qed.
End returns.

(** ** Model store: saving and loading return *)

Lemma mapM_returns {A B} (f : A → result B) (l : list A) :
  (∀ a, a ∈ l → is_Ok (f a)) → is_Ok (mapM (M := result) f l).
Proof.
  induction l as [|a l IH]; intros Hf.
  - by eexists.
  - destruct (Hf a) as [b Hb]; [left|].
    destruct IH as [k Hk]; [intros ? ?; apply Hf; by right|].
    exists (b :: k). cbn. rewrite Hb. cbn. by rewrite Hk.
Qed.












Lemma load_params_keeps_nodes inits node_name leaves inits' n :
  load_params inits node_name leaves = Ok inits' →
  is_Some (inits !! n) → is_Some (inits' !! n).
Proof.
  revert inits. induction leaves as [|[param_name d] rest IH];
    intros inits Hl Hn; simpl in Hl.
  - by inv_Ok.
  - do 2 inv_bind Hl. apply (IH _ Hl).
    destruct (decide (n = node_name)) as [->|Hne].
    + rewrite lookup_insert_eq. by eexists.
    + by rewrite lookup_insert_ne.
Qed.

Lemma load_params_returns inits node_name leaves :
  (∀ k d, (k, d) ∈ leaves → is_Ok (read_dataset d)) →
  (leaves ≠ [] → is_Some (inits !! node_name)) →
  is_Ok (load_params inits node_name leaves).
Proof.
  revert inits. induction leaves as [|[param_name d] rest IH];
    intros inits Hread Hnode.
  - by eexists.
  - destruct (Hread param_name d) as [v Hv]; [left|].
    destruct Hnode as [so_far Hso]; [done|].
    simpl. rewrite Hv. simpl. unfold getitem. rewrite Hso. simpl.
    apply IH.
    + intros k d' Hin. apply (Hread k). by right.
    + intros _. rewrite lookup_insert_eq. by eexists.
Qed.

Lemma load_nodes_returns inits stored :
  (∀ n leaves, (n, leaves) ∈ stored →
     readable leaves ∧ (leaves ≠ ∅ → is_Some (inits !! n))) →
  is_Ok (load_nodes inits stored).
Proof.
  revert inits. induction stored as [|[node_name leaves] rest IH];
    intros inits Hst.
  - by eexists.
  - destruct (Hst node_name leaves) as [Hread Hnode]; [left|].
    destruct (load_params_returns inits node_name (map_to_list leaves))
      as [inits' Hinits'].
    { intros k d Hin%elem_of_map_to_list. by eapply Hread. }
    { intros Hne. apply Hnode. intros ->. by rewrite map_to_list_empty in Hne. }
    simpl. rewrite Hinits'. simpl. apply IH.
    intros n l Hin. destruct (Hst n l) as [Hr Hn]; [by right|].
    split; [done|]. intros Hne. eapply load_params_keeps_nodes; eauto.
Qed.

Lemma node_vocabulary_inits n :
  n ∈ node_vocabulary → is_Some (inits_nodes !! n).
Proof.
  unfold node_vocabulary. rewrite !elem_of_cons, elem_of_nil.
  intros [->|[->|[->|[->|[->|[]]]]]]; by eexists.
Qed.

Lemma load_models_returns api model_file :
  loadable_file model_file → is_Ok (load_models api model_file).
Proof.
  intros Hload. unfold load_models. apply mapM_returns.
  intros [[idx position] g] Hg%elem_of_stored_groups.
  unfold load_position.
  destruct (load_nodes_returns inits_nodes (map_to_list (group_nodes g)))
    as [inits ->]; [|by eexists].
  intros n leaves Hin%elem_of_map_to_list.
  destruct (Hload _ _ _ Hg n leaves Hin) as [Hr Hv].
  split; [done|]. intros Hne. by apply node_vocabulary_inits, Hv.
Qed.


(** ** Model store: the claim *)

Example load_save_ex :
  save_models ex_models ≫= load_models H5py2
  = Ok [(("gene", PosStr "7", Bytes "AACGT"),
         {| info := [];
            nodes :=
              [("x", Some [("group_names", Texts [Bytes "run_a"; Bytes "run_b"])]);
               ("y", Some []);
               ("w", Some [("concentration",
                            Floats [2%nat; 2%nat] [f_one; f_half; f_half; f_one])]);
               ("mu_tau", Some []);
               ("z", Some [])] |})].
Proof. vm_compute. reflexivity. Qed.






(** Saving what was loaded raises: the names read back are [bytes], which
    have no [encode]. *)
Lemma save_loaded_models_raises api :
  (saved ← save_models ex_models;
   loaded ← load_models api saved;
   save_models loaded)
  = Raise AttributeError.
Proof. destruct api; vm_compute; reflexivity. Qed.

(** * Further properties *)

(** ** [get_dummies] *)

Lemma filter_none {A} (P : A → Prop) `{∀ a, Decision (P a)} (l : list A) :
  (∀ a, a ∈ l → ¬ P a) → filter P l = [].
Proof.
  induction l as [|a l IH]; intros Hl; [done|].
  rewrite filter_cons, decide_False by (apply Hl; left).
  apply IH. intros a' Ha'. apply Hl. by right.
Qed.

Lemma count_true_fmap_bool_decide (P : string → Prop) `{∀ e, Decision (P e)}
    (x : list string) :
  count_true ((λ e, bool_decide (P e)) <$> x) = Z.of_nat (length (filter P x)).
Proof.
  unfold count_true. f_equal. induction x as [|e x IH]; [done|].
  rewrite fmap_cons, !filter_cons.
  destruct (decide (P e)).
  - rewrite bool_decide_eq_true_2 by done. rewrite decide_True by done.
    simpl. by rewrite IH.
  - rewrite bool_decide_eq_false_2 by done. rewrite decide_False by done.
    done.
Qed.

Lemma length_filter_NoDup (names : list string) e :
  NoDup names → e ∈ names → length (filter (λ n, e = n) names) = 1%nat.
Proof.
  induction names as [|n names IH]; intros Hnd Hin.
  - by apply elem_of_nil in Hin.
  - apply NoDup_cons in Hnd as [Hn Hnd]. rewrite filter_cons.
    destruct (decide (e = n)) as [->|Hne].
    + rewrite filter_none; [done|]. by intros m Hm ->.
    + apply IH; [done|]. by apply elem_of_cons in Hin as [?|?].
Qed.

Lemma count_true_one_hot_row (names : list string) e :
  NoDup names → e ∈ names →
  count_true ((λ n, bool_decide (e = n)) <$> names) = 1.
Proof.
  intros Hnd Hin. rewrite (count_true_fmap_bool_decide (λ n, e = n)).
  by rewrite length_filter_NoDup.
Qed.

(** X1: every row of the matrix returned by [get_dummies] has one entry per
    returned label and exactly one [True] among them. *)
Theorem get_dummies_rows_one_hot x row :
  row ∈ (get_dummies x).1 →
  length row = length (get_dummies x).2 ∧ count_true row = 1.
Proof.
  rewrite get_dummies_one_hot. simpl. unfold one_hot.
  intros (e & -> & He)%list_elem_of_fmap. split.
  - by rewrite length_fmap.
  - apply count_true_one_hot_row; [apply NoDup_sorted_set|].
    by apply elem_of_sorted_set.
Qed.

Lemma get_dummies_rows_one_hot_witness :
  length [true; false] = length (get_dummies ["c1"; "c1"; "c2"]).2
  ∧ count_true [true; false] = 1.
Proof.
  apply (get_dummies_rows_one_hot ["c1"; "c1"; "c2"] [true; false]).
  vm_compute. left.
Defined.

Lemma column_one_hot names labels j n :
  names !! j = Some n →
  column false j (one_hot names labels) = (λ e, bool_decide (e = n)) <$> labels.
Proof.
  intros Hj. unfold column, one_hot. rewrite <- list_fmap_compose.
  apply list_fmap_ext. intros _ e _. simpl.
  apply nth_lookup_Some with (d := false).
  by rewrite ?Nat.add_0_l, list_lookup_fmap, Hj.
Qed.

Lemma sum_axis0_one_hot names labels :
  labels ≠ [] →
  sum_axis0 (one_hot names labels) = (λ n, occurrences n labels) <$> names.
Proof.
  intros Hne. unfold sum_axis0.
  assert (ncols (one_hot names labels) = length names) as ->.
  { destruct labels as [|e labels]; [done|].
    unfold ncols, one_hot. simpl. by rewrite length_fmap. }
  apply list_eq. intros j. rewrite !list_lookup_fmap.
  destruct (names !! j) as [n|] eqn:Hj.
  - rewrite lookup_seq_lt by (by eapply lookup_lt_Some).
    cbn [fmap option_fmap option_map]. f_equal.
    rewrite (column_one_hot _ _ _ _ Hj). unfold occurrences.
    apply (count_true_fmap_bool_decide (λ e, e = n)).
  - rewrite lookup_seq_ge; [done|]. by apply lookup_ge_None.
Qed.

(** X2: the column sums of the matrix returned by [get_dummies] count, label
    by label, the entries of the input carrying the label. *)
Theorem get_dummies_column_sums x :
  sum_axis0 (get_dummies x).1
  = (λ l, occurrences l x) <$> (get_dummies x).2.
Proof.
  rewrite get_dummies_one_hot. simpl.
  destruct x as [|e x]; [done|]. by apply sum_axis0_one_hot.
Qed.

Example get_dummies_column_sums_ex :
  get_dummies ["b"; "a"; "b"; "b"]
  = ([[false; true]; [true; false]; [false; true]; [false; true]], ["a"; "b"])
  ∧ sum_axis0 (get_dummies ["b"; "a"; "b"; "b"]).1 = [1; 3].
Proof. split; vm_compute; reflexivity. Qed.

(** ** [load_data] *)

(** X3: in an emitted group the reads carrying each requested condition
    (pooling) or each requested run (no pooling) number between [min_count]
    and [max_count]. *)
Theorem load_data_read_counts idx data_dict condition_names run_names
    min_count max_count pooling data key sg :
  load_data idx data_dict condition_names run_names min_count max_count
    pooling = Ok data →
  (key, sg) ∈ data →
  if pooling
  then ∀ c, c ∈ condition_names →
         in_bounds min_count max_count (occurrences c (sg_y_condition_names sg))
  else ∀ r, r ∈ run_names →
         in_bounds min_count max_count (occurrences r (sg_y_run_names sg)).
Proof.
  intros Hl Hin.
  apply (load_data_Ok _ _ _ _ _ _ _ _ _ _ Hl) in Hin
    as (pos & kmer & g & -> & _ & Hg & Hm).
  destruct (gather_lengths _ _ _ _ _ _ _ Hg eq_refl eq_refl) as [Hc Hr].
  destruct (gather_labels_requested _ _ _ _ _ _ _ Hg) as [Hsc Hsr].
  apply make_group_Some in Hm as (-> & Hy & Hlc & Hlr & Hb). simpl in *.
  assert (g_condition_labels g ≠ []) by (intros E; rewrite E in Hc; by destruct (g_y g)).
  assert (g_run_labels g ≠ []) by (intros E; rewrite E in Hr; by destruct (g_y g)).
  destruct pooling.
  - rewrite sum_axis0_one_hot, Forall_fmap, Forall_forall in Hb by done.
    intros c Hc'. apply Hb, elem_of_sorted_set.
    apply len_set_eq_iff in Hlc; [|done].
    apply (elem_of_list_to_set (C := gset string)). rewrite Hlc.
    by apply elem_of_list_to_set.
  - rewrite sum_axis0_one_hot, Forall_fmap, Forall_forall in Hb by done.
    intros r Hr'. apply Hb, elem_of_sorted_set.
    specialize (Hlr eq_refl). apply len_set_eq_iff in Hlr; [|done].
    apply (elem_of_list_to_set (C := gset string)). rewrite Hlr.
    by apply elem_of_list_to_set.
Qed.

Lemma load_data_read_counts_witness :
  in_bounds 2 3000 (occurrences "run_b" (sg_y_run_names ex_group)).
Proof.
  apply (load_data_read_counts "gene" ex_data ["c1"; "c2"] ["run_a"; "run_b"]
           2 3000 false [(("gene", PosInt 7, "AACGT"), ex_group)]
           ("gene", PosInt 7, "AACGT") ex_group).
  - vm_compute. reflexivity.
  - left.
  - right. left.
Defined.

Lemma load_groups_keys data_dict idx condition_names run_names min_count
    max_count pooling pairs data :
  load_groups data_dict idx condition_names run_names min_count max_count
    pooling pairs = Ok data →
  data.*1 `sublist_of` (λ p, (idx, p.1, p.2)) <$> pairs.
Proof.
  revert data. induction pairs as [|[pos kmer] rest IH]; intros data Hl;
    simpl in Hl.
  - by inv_Ok.
  - do 2 inv_bind Hl. specialize (IH _ Ha0).
    destruct (make_group _ _ _ _ _ a); inv_Ok; simpl.
    + by apply sublist_skip.
    + by apply sublist_cons.
Qed.

(** X4: the result holds at most one group per key. *)
Theorem load_data_keys_distinct idx data_dict condition_names run_names
    min_count max_count pooling data :
  load_data idx data_dict condition_names run_names min_count max_count
    pooling = Ok data →
  NoDup data.*1.
Proof.
  unfold load_data. intros Hl. do 2 inv_bind Hl.
  apply load_groups_keys in Hl. eapply sublist_NoDup; [|done].
  apply NoDup_fmap_2_strong; [|apply NoDup_elements].
  by intros [] [] _ _ [= -> ->].
Qed.

Lemma load_data_keys_distinct_witness :
  NoDup [(("gene", PosInt 7, "AACGT"), ex_group)].*1.
Proof.
  apply (load_data_keys_distinct "gene" ex_data ["c1"; "c2"]
           ["run_a"; "run_b"] 2 3000 false).
  vm_compute. reflexivity.
Defined.

Lemma collect_pairs_raises data_dict idx run_names e :
  collect_pairs data_dict idx run_names = Raise e → e = KeyError.
Proof.
  induction run_names as [|run_name rest IH]; simpl; [done|].
  unfold getitem. destruct (data_dict !! run_name) as [d_run|]; simpl;
    [|congruence].
  destruct (d_run !! idx); simpl; [|congruence].
  destruct (collect_pairs data_dict idx rest); simpl; [done|].
  intros [= <-]. by apply IH.
Qed.

(** X5: when a run of [run_names] is not in [data_dict], or does not hold
    the target, [load_data] raises [KeyError]. *)
Theorem load_data_missing_run idx data_dict condition_names run_names
    min_count max_count pooling run_name :
  run_name ∈ run_names →
  (∀ d_run, data_dict !! run_name = Some d_run → d_run !! idx = None) →
  load_data idx data_dict condition_names run_names min_count max_count
    pooling = Raise KeyError.
Proof.
  intros Hin Hmiss. unfold load_data.
  destruct (collect_pairs data_dict idx run_names) as [per_run|e] eqn:Hc.
  - apply collect_pairs_Ok in Hc.
    apply list_elem_of_lookup in Hin as [i Hi].
    destruct (Forall2_lookup_l _ _ _ _ _ Hc Hi)
      as (ps & _ & d_run & d_idx & Hrun & Hidx & _).
    rewrite (Hmiss _ Hrun) in Hidx. discriminate.
  - simpl. by rewrite (collect_pairs_raises _ _ _ _ Hc).
Qed.

Lemma load_data_missing_run_witness :
  load_data "gene" ex_data ["c1"; "c2"] ["run_a"; "run_z"] 2 3000 false
  = Raise KeyError.
Proof.
  apply (load_data_missing_run "gene" ex_data ["c1"; "c2"]
           ["run_a"; "run_z"] 2 3000 false "run_z").
  - right. left.
  - intros d_run Hd. vm_compute in Hd. discriminate.
Defined.

Lemma len_set_le_length (l : list string) : (len_set l ≤ length l)%nat.
Proof.
  unfold len_set. induction l as [|a l IH].
  - rewrite list_to_set_nil, size_empty. simpl. lia.
  - rewrite list_to_set_cons, size_union_alt, size_singleton. simpl.
    assert (size (list_to_set l ∖ {[a]} : gset string)
            ≤ size (list_to_set l : gset string))%nat.
    { apply subseteq_size. apply subseteq_difference_l. done. }
    lia.
Qed.

Lemma len_set_subseteq (l k : list string) :
  l ⊆ k → (len_set l ≤ len_set k)%nat.
Proof.
  intros Hsub. unfold len_set.
  apply (subseteq_size (C := gset string)). intros e.
  rewrite !elem_of_list_to_set. apply Hsub.
Qed.

(** X6: the runs are paired with the conditions by [zip]; when fewer
    condition names than (distinct) run names are given, the runs left
    unpaired contribute no read, and without pooling no group is emitted. *)
Theorem load_data_fewer_conditions idx data_dict condition_names run_names
    min_count max_count data :
  NoDup run_names →
  (length condition_names < length run_names)%nat →
  load_data idx data_dict condition_names run_names min_count max_count
    false = Ok data →
  data = [].
Proof.
  intros Hnd Hlt Hl. destruct data as [|[key sg] data]; [done|]. exfalso.
  assert (Hin : (key, sg) ∈ (key, sg) :: data) by left.
  apply (load_data_Ok _ _ _ _ _ _ _ _ _ _ Hl) in Hin
    as (pos & kmer & g & -> & _ & Hg & Hm).
  apply make_group_Some in Hm as (_ & _ & _ & Hlr & _).
  specialize (Hlr eq_refl).
  apply gather_labels in Hg as [_ Hr].
  assert (Hsub : g_run_labels g ⊆ (zip condition_names run_names).*2).
  { intros r [[]%elem_of_nil|?]%Hr. done. }
  apply len_set_subseteq in Hsub.
  pose proof (len_set_le_length (zip condition_names run_names).*2) as Hle.
  rewrite length_fmap, length_zip in Hle.
  unfold len_set in Hlr at 2. rewrite size_list_to_set in Hlr by done. lia.
Qed.

Lemma load_data_fewer_conditions_witness :
  @nil (group_key * sample_group) = [].
Proof.
  apply (load_data_fewer_conditions "gene" ex_data ["c1"]
           ["run_a"; "run_b"] 2 3000 []).
  - apply (bool_decide_unpack _). vm_compute. exact I.
  - simpl. lia.
  - vm_compute. reflexivity.
Defined.

Lemma make_group_wider condition_names run_names min_count max_count
    min_count' max_count' pooling g sg :
  min_count' ≤ min_count → max_count ≤ max_count' →
  make_group condition_names run_names min_count max_count pooling g = Some sg →
  make_group condition_names run_names min_count' max_count' pooling g = Some sg.
Proof.
  intros Hmin Hmax. unfold make_group.
  destruct (_ || _ || _); [done|].
  destruct (get_dummies (g_condition_labels g)) as [x cnd].
  destruct (get_dummies (g_run_labels g)) as [r rnd].
  assert (Hw : ∀ v, out_of_bounds min_count max_count v = false →
                    out_of_bounds min_count' max_count' v = false).
  { intros v. rewrite !out_of_bounds_false. intros Hf.
    eapply Forall_impl; [exact Hf|]. unfold in_bounds. intros; lia. }
  destruct pooling.
  - destruct (out_of_bounds min_count max_count _) eqn:Hb; [done|].
    by rewrite (Hw _ Hb).
  - destruct (out_of_bounds min_count max_count _) eqn:Hb; [done|].
    by rewrite (Hw _ Hb).
Qed.

Lemma load_groups_Ok_any_bounds data_dict idx condition_names run_names
    min_count max_count min_count' max_count' pooling pairs data :
  load_groups data_dict idx condition_names run_names min_count max_count
    pooling pairs = Ok data →
  is_Ok (load_groups data_dict idx condition_names run_names min_count'
           max_count' pooling pairs).
Proof.
  revert data. induction pairs as [|[pos kmer] rest IH]; intros data Hl;
    simpl in *.
  - by eexists.
  - do 2 inv_bind Hl. rewrite Ha. simpl.
    destruct (IH _ Ha0) as [more ->]. simpl.
    destruct (make_group _ _ min_count' _ _ _); by eexists.
Qed.

(** X7: widening the coverage bounds loses no group: what is emitted for
    [[min_count, max_count]] is emitted, unchanged, for any wider range. *)
Theorem load_data_wider_bounds idx data_dict condition_names run_names
    min_count max_count min_count' max_count' pooling data :
  min_count' ≤ min_count → max_count ≤ max_count' →
  load_data idx data_dict condition_names run_names min_count max_count
    pooling = Ok data →
  ∃ data',
    load_data idx data_dict condition_names run_names min_count' max_count'
      pooling = Ok data'
    ∧ ∀ key sg, (key, sg) ∈ data → (key, sg) ∈ data'.
Proof.
  intros Hmin Hmax Hl.
  assert (is_Ok (load_data idx data_dict condition_names run_names min_count'
                   max_count' pooling)) as [data' Hl'].
  { unfold load_data in *. do 2 inv_bind Hl. rewrite Ha. simpl.
    rewrite Ha0. simpl. by eapply load_groups_Ok_any_bounds. }
  exists data'. split; [done|]. intros key sg Hin.
  apply (load_data_Ok _ _ _ _ _ _ _ _ _ _ Hl) in Hin
    as (pos & kmer & g & -> & Hp & Hg & Hm).
  apply (load_data_Ok _ _ _ _ _ _ _ _ _ _ Hl').
  exists pos, kmer, g. split_and!; [done..|]. by eapply make_group_wider.
Qed.

Lemma load_data_wider_bounds_witness :
  ∃ data',
    load_data "gene" ex_data ["c1"; "c2"] ["run_a"; "run_b"] 1 5000 false
    = Ok data'
    ∧ ∀ key sg, (key, sg) ∈ [(("gene", PosInt 7, "AACGT"), ex_group)] →
        (key, sg) ∈ data'.
Proof.
  apply (load_data_wider_bounds "gene" ex_data ["c1"; "c2"]
           ["run_a"; "run_b"] 2 3000 1 5000 false); [lia | lia |].
  vm_compute. reflexivity.
Defined.

Lemma gather_labelled data_dict idx pos kmer pairing zipped acc g :
  gather data_dict idx pos kmer zipped acc = Ok g →
  zipped ⊆ pairing →
  length (g_condition_labels acc) = length (g_y acc) →
  length (g_run_labels acc) = length (g_y acc) →
  labelled data_dict idx pos kmer pairing
    (g_y acc) (g_condition_labels acc) (g_run_labels acc) →
  labelled data_dict idx pos kmer pairing
    (g_y g) (g_condition_labels g) (g_run_labels g).
Proof.
  revert acc. induction zipped as [|[c r] rest IH];
    intros acc Hg Hsub Hlc Hlr Hacc; simpl in Hg.
  - by inv_Ok.
  - do 4 inv_bind Hg. inv_Ok. apply IH in Hg; [done| | | |]; simpl.
    + intros cr Hcr. apply Hsub. by right.
    + rewrite !length_app, length_replicate. lia.
    + rewrite !length_app, length_replicate. lia.
    + intros i v [Hi|[Hge Hi]]%lookup_app_Some.
      * destruct (Hacc i v Hi) as (c' & r' & rec & Hc' & Hr' & ? & ? & ?).
        exists c', r', rec. split_and!; [| |done..].
        -- by apply lookup_app_l_Some.
        -- by apply lookup_app_l_Some.
      * exists c, r, a2. split_and!.
        -- rewrite lookup_app_r by lia. rewrite Hlc.
           apply lookup_replicate_2. by eapply lookup_lt_Some.
        -- rewrite lookup_app_r by lia. rewrite Hlr.
           apply lookup_replicate_2. by eapply lookup_lt_Some.
        -- apply Hsub. left.
        -- by exists a, a0, a1.
        -- by eapply list_elem_of_lookup_2.
Qed.

(** X8: in an emitted group every value is labelled with a run holding it
    at the group's position and context, and with the condition [zip] pairs
    with that run. *)
Theorem load_data_values_labelled idx data_dict condition_names run_names
    min_count max_count pooling data idx' pos kmer sg :
  load_data idx data_dict condition_names run_names min_count max_count
    pooling = Ok data →
  ((idx', pos, kmer), sg) ∈ data →
  labelled data_dict idx pos kmer (zip condition_names run_names)
    (sg_y sg) (sg_y_condition_names sg) (sg_y_run_names sg).
Proof.
  intros Hl Hin.
  apply (load_data_Ok _ _ _ _ _ _ _ _ _ _ Hl) in Hin
    as (pos' & kmer' & g & [= -> -> ->] & _ & Hg & Hm).
  apply make_group_Some in Hm as (-> & _). simpl.
  apply (gather_labelled _ _ _ _ _ _ _ _ Hg); [done..|].
  intros i v Hi. simpl in Hi. by rewrite lookup_nil in Hi.
Qed.

Lemma load_data_values_labelled_witness :
  ∃ c r rec,
    sg_y_condition_names ex_group !! 2%nat = Some c
    ∧ sg_y_run_names ex_group !! 2%nat = Some r
    ∧ (c, r) ∈ zip ["c1"; "c2"] ["run_a"; "run_b"]
    ∧ record_at ex_data r "gene" (PosInt 7) "AACGT" rec
    ∧ f_one ∈ norm_means rec.
Proof.
  apply (load_data_values_labelled "gene" ex_data ["c1"; "c2"]
           ["run_a"; "run_b"] 2 3000 false
           [(("gene", PosInt 7, "AACGT"), ex_group)] "gene" (PosInt 7)
           "AACGT" ex_group).
  - vm_compute. reflexivity.
  - left.
  - reflexivity.
Defined.

(** X16: with at least one run, [load_data] returns exactly when every run
    of [run_names] is in [data_dict] and holds the target; the conditions,
    the bounds and the pooling flag play no part in it. *)
Theorem load_data_returns_iff idx data_dict condition_names run_names
    min_count max_count pooling :
  run_names ≠ [] →
  is_Ok (load_data idx data_dict condition_names run_names min_count
           max_count pooling)
  ↔ ∀ run_name, run_name ∈ run_names →
      ∃ d_run d_idx, data_dict !! run_name = Some d_run
                     ∧ d_run !! idx = Some d_idx.
Proof.
  intros Hne. split; [|by apply load_data_returns].
  intros [data Hd] run_name Hin. unfold load_data in Hd. inv_bind Hd.
  apply collect_pairs_Ok in Ha.
  apply list_elem_of_lookup in Hin as [i Hi].
  destruct (Forall2_lookup_l _ _ _ _ _ Ha Hi)
    as (ps & _ & d_run & d_idx & Hrun & Hidx & _).
  eauto.
Qed.

Lemma load_data_returns_iff_witness :
  is_Ok (load_data "gene" ex_data ["c1"; "c2"] ["run_a"; "run_b"] 2 3000
           false)
  ↔ ∀ run_name, run_name ∈ ["run_a"; "run_b"] →
      ∃ d_run d_idx, ex_data !! run_name = Some d_run
                     ∧ d_run !! "gene" = Some d_idx.
Proof.
  apply (load_data_returns_iff "gene" ex_data ["c1"; "c2"]
           ["run_a"; "run_b"] 2 3000 false).
  discriminate.
Defined.

(** ** [get_ordered_condition_run_names] and the header *)

Lemma elem_of_concat {A} (x : A) (ls : list (list A)) :
  x ∈ concat ls ↔ ∃ l, x ∈ l ∧ l ∈ ls.
Proof.
  induction ls as [|l ls IH]; simpl.
  - split; [by intros ?%elem_of_nil | by intros (? & _ & ?%elem_of_nil)].
  - rewrite elem_of_app, IH. split.
    + intros [?|(l' & ? & ?)]; [exists l | exists l'];
        (split; [done|]); [left | by right].
    + intros (l' & ? & [->|?]%elem_of_cons); [by left | right; by exists l'].
Qed.

Lemma condition_names_of_keys cond2run_dict c :
  c ∈ condition_names_of cond2run_dict ↔ is_Some (cond2run_dict !! c).
Proof.
  split; [apply elem_of_condition_names_of|].
  unfold condition_names_of, get_ordered_condition_run_names. simpl.
  rewrite elem_of_sorted_set. intros [runs Hc].
  apply list_elem_of_fmap. exists (c, runs).
  split; [done|]. by apply elem_of_map_to_list.
Qed.

Lemma condition_names_of_sorted cond2run_dict :
  StronglySorted String.le (condition_names_of cond2run_dict).
Proof. apply StronglySorted_sorted_set. Qed.

(** X9: the condition names are the keys of the mapping and the run names
    the runs listed under some key, each in increasing lexicographic order
    without repetition. *)
Theorem ordered_names_sorted_distinct cond2run_dict :
  (StronglySorted String.le (condition_names_of cond2run_dict)
   ∧ NoDup (condition_names_of cond2run_dict)
   ∧ ∀ c, c ∈ condition_names_of cond2run_dict ↔ is_Some (cond2run_dict !! c))
  ∧ (StronglySorted String.le (run_names_of cond2run_dict)
     ∧ NoDup (run_names_of cond2run_dict)
     ∧ ∀ r, r ∈ run_names_of cond2run_dict
            ↔ ∃ c runs, cond2run_dict !! c = Some runs ∧ r ∈ runs).
Proof.
  split_and!; try apply condition_names_of_keys;
    unfold condition_names_of, run_names_of, get_ordered_condition_run_names;
    simpl; try apply StronglySorted_sorted_set; try apply NoDup_sorted_set.
  intros r. rewrite elem_of_sorted_set, elem_of_concat. split.
  - intros (runs & Hr & ([c runs'] & -> & Hin)%list_elem_of_fmap).
    apply elem_of_map_to_list in Hin. by exists c, runs'.
  - intros (c & runs & Hc & Hr). exists runs. split; [done|].
    apply list_elem_of_fmap. exists (c, runs). split; [done|].
    by apply elem_of_map_to_list.
Qed.

Lemma length_combinations2 {A} (l : list A) :
  (2 * length (combinations2 l) = length l * (length l - 1))%nat.
Proof.
  induction l as [|a l IH]; [done|].
  simpl. rewrite length_app, length_fmap. nia.
Qed.

(** X10: the header has twelve leading columns, two per run name, three per
    unordered pair of condition names and, with more than two condition
    names, three more per condition name. *)
Theorem header_length cond2run_dict :
  length (get_result_table_header cond2run_dict)
  = (12 + 2 * length (run_names_of cond2run_dict)
     + 3 * (length (condition_names_of cond2run_dict)
            * (length (condition_names_of cond2run_dict) - 1) / 2)
     + (if bool_decide (2 < length (condition_names_of cond2run_dict))
        then 3 * length (condition_names_of cond2run_dict) else 0))%nat.
Proof.
  rewrite length_get_result_table_header. unfold n_leading_columns.
  pose proof (length_combinations2 (condition_names_of cond2run_dict)) as Hc.
  set (k := (length (condition_names_of cond2run_dict)
              * (length (condition_names_of cond2run_dict) - 1))%nat) in *.
  replace (k / 2)%nat
    with (length (combinations2 (condition_names_of cond2run_dict)))
    by (rewrite <- Hc, (Nat.mul_comm 2); symmetry; by apply Nat.div_mul).
  done.
Qed.

Lemma elem_of_combinations2_sorted (l : list string) a b :
  StronglySorted String.le l → a ∈ l → b ∈ l → a ≠ b → String.le a b →
  (a, b) ∈ combinations2 l.
Proof.
  induction 1 as [|x l Hl IH Hx]; intros Ha Hb Hne Hle.
  - by apply elem_of_nil in Ha.
  - simpl. apply elem_of_app.
    apply elem_of_cons in Ha as [->|Ha], Hb as [->|Hb].
    + done.
    + left. apply list_elem_of_fmap. by exists b.
    + rewrite Forall_forall in Hx. specialize (Hx a Ha).
      destruct Hne. by apply (anti_symm String.le).
    + right. by apply IH.
Qed.

(** X11: column names can repeat.  With more than two conditions, one of
    them named [all] and another one sorted before it, the pairwise column of
    the two and the one-vs-all column of the other bear the same name. *)
Theorem header_repeats_with_condition_all cond2run_dict c :
  (2 < length (condition_names_of cond2run_dict))%nat →
  is_Some (cond2run_dict !! "all") →
  is_Some (cond2run_dict !! c) →
  c ≠ "all" → String.le c "all" →
  ¬ NoDup (get_result_table_header cond2run_dict).
Proof.
  intros Hn Hall Hc Hne Hle.
  pose proof (condition_names_of_sorted cond2run_dict) as Hsorted.
  apply condition_names_of_keys in Hall, Hc.
  rewrite get_result_table_header_parts, bool_decide_eq_true_2 by done.
  intros [_ [_ Hnd]]%NoDup_app. apply NoDup_app in Hnd as (_ & Hdisj & _).
  apply (Hdisj ("p_ws_" +:+ c +:+ "_vs_all")).
  - unfold pairwise_columns. apply list_elem_of_bind. exists (c, "all").
    split; [left | by apply elem_of_combinations2_sorted].
  - unfold one_vs_all_columns. apply list_elem_of_bind. exists c.
    split; [left | done].
Qed.

Lemma header_repeats_with_condition_all_witness :
  ¬ NoDup (get_result_table_header ex_cond2run_all).
Proof.
  apply (header_repeats_with_condition_all ex_cond2run_all "a").
  - vm_compute. lia.
  - by eexists.
  - by eexists.
  - discriminate.
  - vm_compute. exact I.
Defined.

(** ** Rows of the result table *)

Lemma select_partition {A} mask (l a b : list A) :
  select mask l = Ok a → select (negb <$> mask) l = Ok b → a ++ b ≡ₚ l.
Proof.
  revert l a b.
  induction mask as [|m mask IH]; intros [|v l] a b Ha Hb; simpl in Ha, Hb;
    try discriminate.
  - by inv_Ok.
  - inv_bind Ha. inv_bind Hb. specialize (IH _ _ _ Ha0 Ha1).
    destruct m; simpl in *; inv_Ok.
    + simpl. by constructor.
    + rewrite <- Permutation_middle. by constructor.
Qed.

(** X12: a one-vs-all test compares the groups of the condition's runs with
    all the remaining groups: its two pools of weights together are the
    model's first-component weights, each once, and the two pools of
    coverages are the model's coverages. *)
Theorem one_vs_all_pools_partition names runs w (w0 w1 w2 : list float)
    (coverage n1 n2 : list float) :
  column_at 0 w = Ok w0 →
  select_column (isin names runs) 0 w = Ok w1 →
  select_column (negb <$> isin names runs) 0 w = Ok w2 →
  select (isin names runs) coverage = Ok n1 →
  select (negb <$> isin names runs) coverage = Ok n2 →
  w1 ++ w2 ≡ₚ w0 ∧ n1 ++ n2 ≡ₚ coverage.
Proof.
  intros Hw0 Hw1 Hw2 Hn1 Hn2. split.
  - eapply select_partition; by eapply select_column_Ok.
  - by eapply select_partition.
Qed.

Lemma one_vs_all_pools_partition_witness :
  [f_one] ++ [f_half] ≡ₚ [f_one; f_half]
  ∧ [f_one] ++ [f_zero] ≡ₚ [f_one; f_zero].
Proof.
  apply (one_vs_all_pools_partition ["run_a"; "run_b"] ["run_a"]
           (w_expected ex_fitted) [f_one; f_half] [f_one] [f_half]
           [f_one; f_zero] [f_one] [f_zero]); reflexivity.
Defined.

Lemma lookup_app_plus {A} (l1 l2 : list A) (n j : nat) :
  length l1 = n → (l1 ++ l2) !! (n + j)%nat = l2 !! j.
Proof.
  intros <-. rewrite lookup_app_r by lia. f_equal. lia.
Qed.

Lemma pooled_by_cons {A} (P : string → Prop) `{∀ n, Decision (P n)}
    n (names : list string) a (vals : list A) :
  pooled_by P (n :: names) (a :: vals)
  = if decide (P n) then a :: pooled_by P names vals
    else pooled_by P names vals.
Proof.
  unfold pooled_by. simpl. rewrite filter_cons. simpl.
  by destruct (decide (P n)).
Qed.

Lemma pooled_by_none {A} (P : string → Prop) `{∀ n, Decision (P n)}
    (names : list string) (vals : list A) :
  filter P names = [] → pooled_by P names vals = [].
Proof.
  revert vals.
  induction names as [|n names IH]; intros [|v vals]; try done.
  rewrite pooled_by_cons, filter_cons. destruct (decide (P n)); [done|].
  apply IH.
Qed.

Lemma pooled_by_single {A} run (names : list string) (vals : list A) g v :
  length (filter (λ n, n = run) names) = 1%nat →
  names !! g = Some run → vals !! g = Some v →
  pooled_by (λ n, n = run) names vals = [v].
Proof.
  revert vals g.
  induction names as [|n names IH]; intros [|a vals] g Hone Hn Hv;
    try done.
  rewrite pooled_by_cons. rewrite filter_cons in Hone.
  destruct (decide (n = run)) as [->|Hne].
  - simpl in Hone. injection Hone as Hone.
    apply nil_length_inv in Hone. destruct g as [|g]; simpl in *.
    + injection Hv as ->. f_equal. by apply pooled_by_none.
    + assert (run ∈ filter (λ n, n = run) names) as Hin.
      { apply list_elem_of_filter. split; [done|].
        by eapply list_elem_of_lookup_2. }
      rewrite Hone in Hin. by apply elem_of_nil in Hin.
  - destruct g as [|g]; simpl in *; [congruence|]. by eapply IH.
Qed.

Lemma per_run_lookup (names : list string) (vals : list float) run_names j
    run g v :
  length names = length vals →
  (∀ r, r ∈ run_names → length (filter (λ n, n = r) names) = 1%nat) →
  run_names !! j = Some run → names !! g = Some run → vals !! g = Some v →
  per_run names vals run_names !! j = Some v.
Proof.
  intros Hlen. unfold per_run. revert j.
  induction run_names as [|r rest IH]; intros j Hone Hj Hg Hv; [done|].
  rewrite bind_cons. destruct j as [|j]; simpl in Hj.
  - injection Hj as ->.
    rewrite (pooled_by_single run names vals g v); [done| |done..].
    apply Hone. left.
  - change (S j) with (1 + j)%nat. rewrite lookup_app_plus.
    + apply IH; [|done..]. intros r' Hr'. apply Hone. by right.
    + rewrite length_pooled_by by done. apply Hone. left.
Qed.

Section row_properties.
Context `{Stats}.

(** What a computed row tells of the model's groups when runs are looked
    up: the weights survive the squeeze, and weights, coverages and group
    names go one to one. *)
Lemma row_of_groups cond2run_dict condition_names run_names key model row :
  row_of cond2run_dict condition_names run_names key model = Ok row →
  run_names ≠ [] →
  ∃ w0, column_at 0 (w_expected model) = Ok w0
        ∧ length w0 ≠ 1%nat
        ∧ length (x_group_names model) = length w0
        ∧ length (x_group_names model) = length (coverage_of model).
Proof.
  unfold row_of. destruct key as [[idx position] kmer].
  intros Hr Hne. do 3 inv_bind Hr.
  destruct (calc_prob_overlapping _ _) as [p_overlap cdf].
  do 3 inv_bind Hr. destruct a4 as [[mu' sigma2'] w_min].
  inv_bind Hr. destruct a4 as [ws cs].
  apply orient_Ok in Ha4 as (m0 & m1 & _ & _ & _ & _ & Hw).
  destruct run_names as [|run_name rest]; [done|]. simpl in Ha5.
  do 2 inv_bind Ha5. apply select_Ok in Ha6 as [_ Hc].
  exists a1. split; [done|].
  destruct w_min as [v|l]; [discriminate|]. simpl in Ha4.
  apply select_Ok in Ha4 as [_ Hl].
  assert (squeezed_list (squeeze a1) = a1) as Hsq
    by apply squeezed_list_squeeze.
  destruct (squeeze a1) as [v|l'] eqn:Hsqueeze.
  { by destruct (fltb m1 m0). }
  simpl in Hsq. subst l'. split_and!.
  - destruct a1 as [|? [|? ?]]; simpl in *; done.
  - rewrite Hl. destruct (fltb m1 m0); simpl in Hw; injection Hw as ->;
      by rewrite ?length_fmap.
  - done.
Qed.

(** X13: for a model of two components whose group names list each run of
    the mapping once (and four intersection coordinates), the columns of the
    runs line up with the header: column [w_min_<run>] holds the weight of
    the lower-mean component in the group named after the run and column
    [coverage_<run>] that group's coverage. *)
Theorem run_columns_aligned models cond2run_dict table i key model row j
    run g :
  generate_result_table models cond2run_dict = Ok table →
  models !! i = Some (key, model) →
  table !! i = Some row →
  length (mu_tau_expected model) = 2%nat →
  length (mu_tau_expected_gamma model) = 2%nat →
  length (calc_prob_overlapping (mu_tau_expected model)
            (sigma2_of model)).2 = 4%nat →
  (∀ r, r ∈ run_names_of cond2run_dict →
     length (filter (λ n, n = r) (x_group_names model)) = 1%nat) →
  run_names_of cond2run_dict !! j = Some run →
  x_group_names model !! g = Some run →
  ∃ m0 m1 w0 w_g c_g,
    mu_tau_expected model !! 0%nat = Some m0
    ∧ mu_tau_expected model !! 1%nat = Some m1
    ∧ column_at 0 (w_expected model) = Ok w0
    ∧ w0 !! g = Some w_g
    ∧ coverage_of model !! g = Some c_g
    ∧ get_result_table_header cond2run_dict !! (12 + j)%nat
      = Some ("w_min_" +:+ run)
    ∧ row !! (12 + j)%nat
      = Some (CFloat (if fltb m1 m0 then fsub fone w_g else w_g))
    ∧ get_result_table_header cond2run_dict
        !! (12 + length (run_names_of cond2run_dict) + j)%nat
      = Some ("coverage_" +:+ run)
    ∧ row !! (12 + length (run_names_of cond2run_dict) + j)%nat
      = Some (CFloat c_g).
Proof.
  intros Hg Hm Ht Hmu Hgamma Hov Hone Hj Hrun.
  set (n_runs := length (run_names_of cond2run_dict)).
  pose proof (generate_result_table_Ok _ _ _ _ _ _ _ Hg Hm Ht) as Hr.
  destruct (row_of_groups _ _ _ _ _ _ Hr) as (w0 & Hw0 & _ & Hlw & Hlc).
  { intros Hnil. by rewrite Hnil in Hj. }
  apply row_of_Ok in Hr as (m0 & m1 & w0' & Hm0 & Hm1 & Hw0' & -> & Hper).
  assert (w0' = w0) as -> by congruence. destruct (Hper Hone) as [Hlen_w _].
  destruct (lookup_lt_is_Some_2 w0 g) as [w_g Hwg].
  { rewrite <- Hlw. by eapply lookup_lt_Some. }
  destruct (lookup_lt_is_Some_2 (coverage_of model) g) as [c_g Hcg].
  { rewrite <- Hlc. by eapply lookup_lt_Some. }
  pose proof (lookup_lt_Some _ _ _ Hj) as Hjlt. fold n_runs in Hjlt, Hlen_w.
  assert (length (if fltb m1 m0 then reverse (mu_tau_expected model)
                  else mu_tau_expected model) = 2%nat) as Hmu'.
  { destruct (fltb m1 m0); by rewrite ?length_reverse. }
  assert (length (if fltb m1 m0 then reverse (sigma2_of model)
                  else sigma2_of model) = 2%nat) as Hsigma'.
  { unfold sigma2_of.
    destruct (fltb m1 m0); by rewrite ?length_reverse, length_fmap. }
  exists m0, m1, w0, w_g, c_g. split_and!; try done.
  - rewrite get_result_table_header_parts.
    rewrite lookup_app_l
      by (rewrite !length_app, !length_fmap; simpl; fold n_runs; lia).
    rewrite lookup_app_plus by done.
    rewrite lookup_app_l by (rewrite length_fmap; done).
    by rewrite list_lookup_fmap, Hj.
  - unfold row_layout. cbv zeta.
    rewrite lookup_app_l.
    2:{ rewrite !length_app, !length_fmap, Hlen_w, Hmu', Hsigma', Hov.
        simpl. lia. }
    change (12 + j)%nat with (3 + (2 + (2 + (1 + (4 + j)))))%nat.
    rewrite (lookup_app_plus [_; _; _]) by done.
    rewrite lookup_app_plus by (by rewrite length_fmap).
    rewrite lookup_app_plus by (by rewrite length_fmap).
    rewrite (lookup_app_plus [_]) by done.
    rewrite lookup_app_plus by (by rewrite length_fmap).
    rewrite lookup_app_l by (rewrite length_fmap, Hlen_w; done).
    rewrite list_lookup_fmap.
    erewrite per_run_lookup; [done| |done..|].
    + destruct (fltb m1 m0); by rewrite ?length_fmap.
    + destruct (fltb m1 m0); [|done]. by rewrite list_lookup_fmap, Hwg.
  - rewrite get_result_table_header_parts.
    rewrite lookup_app_l
      by (rewrite !length_app, !length_fmap; simpl; fold n_runs; lia).
    rewrite <- Nat.add_assoc. rewrite lookup_app_plus by done.
    rewrite lookup_app_plus by (by rewrite length_fmap).
    by rewrite list_lookup_fmap, Hj.
  - unfold row_layout. cbv zeta.
    rewrite lookup_app_l.
    2:{ rewrite !length_app, !length_fmap, Hlen_w, Hmu', Hsigma', Hov.
        simpl. destruct (Hper Hone) as [_ ->]. fold n_runs. lia. }
    replace (12 + n_runs + j)%nat
      with (3 + (2 + (2 + (1 + (4 + (n_runs + j))))))%nat by lia.
    rewrite (lookup_app_plus [_; _; _]) by done.
    rewrite lookup_app_plus by (by rewrite length_fmap).
    rewrite lookup_app_plus by (by rewrite length_fmap).
    rewrite (lookup_app_plus [_]) by done.
    rewrite lookup_app_plus by (by rewrite length_fmap).
    rewrite lookup_app_plus by (by rewrite length_fmap).
    rewrite list_lookup_fmap.
    by erewrite per_run_lookup.
Qed.
End row_properties.

Lemma run_columns_aligned_witness :
  ∃ m0 m1 w0 w_g c_g,
    mu_tau_expected ex_fitted !! 0%nat = Some m0
    ∧ mu_tau_expected ex_fitted !! 1%nat = Some m1
    ∧ column_at 0 (w_expected ex_fitted) = Ok w0
    ∧ w0 !! 1%nat = Some w_g
    ∧ @coverage_of ex_stats ex_fitted !! 1%nat = Some c_g
    ∧ get_result_table_header ex_cond2run !! (12 + 1)%nat
      = Some ("w_min_" +:+ "run_b")
    ∧ ex_row !! (12 + 1)%nat
      = Some (CFloat (if fltb m1 m0 then fsub fone w_g else w_g))
    ∧ get_result_table_header ex_cond2run
        !! (12 + length (run_names_of ex_cond2run) + 1)%nat
      = Some ("coverage_" +:+ "run_b")
    ∧ ex_row !! (12 + length (run_names_of ex_cond2run) + 1)%nat
      = Some (CFloat c_g).
Proof.
  apply (@run_columns_aligned ex_stats [(ex_key, ex_fitted)] ex_cond2run
           [ex_row] 0 ex_key ex_fitted ex_row 1 "run_b" 1).
  - vm_compute. reflexivity.
  - reflexivity.
  - reflexivity.
  - reflexivity.
  - reflexivity.
  - reflexivity.
  - intros r Hin. vm_compute in Hin.
    apply elem_of_cons in Hin as [->|Hin]; [reflexivity|].
    apply list_elem_of_singleton in Hin as ->. reflexivity.
  - vm_compute. reflexivity.
  - reflexivity.
Defined.

(** ** What [generate_result_table] raises *)

Lemma bind_Raise {A B} (m : result A) (f : A → result B) e :
  m ≫= f = Raise e → m = Raise e ∨ ∃ a, m = Ok a ∧ f a = Raise e.
Proof. destruct m as [a|e']; simpl; intros Hm; [right; eauto | left; congruence]. Qed.

Ltac raise_bind H :=
  let a := fresh "a" in
  let Ha := fresh "Ha" in
  apply bind_Raise in H as [H | (a & Ha & H)].

Lemma select_raises {A} mask (l : list A) e :
  select mask l = Raise e → e = IndexError.
Proof.
  revert l. induction mask as [|b mask IH]; intros [|v l] Hs; simpl in Hs;
    try congruence.
  raise_bind Hs; [by eapply IH | discriminate].
Qed.

Lemma index_raises {A} (l : list A) i e : index l i = Raise e → e = IndexError.
Proof. unfold index. destruct (l !! i); congruence. Qed.

Lemma mapM_index_raises (l : list (list float)) j e :
  mapM (M := result) (λ row, index row j) l = Raise e → e = IndexError.
Proof.
  induction l as [|row l IH]; intros Hm; simpl in Hm; [discriminate|].
  raise_bind Hm; [by eapply index_raises|].
  raise_bind Hm; [auto | discriminate].
Qed.

Lemma column_at_raises j m e : column_at j m = Raise e → e = IndexError.
Proof.
  unfold column_at. case_bool_decide; [apply mapM_index_raises | congruence].
Qed.

Lemma select_column_raises mask j m e :
  select_column mask j m = Raise e → e = IndexError.
Proof.
  unfold select_column. intros Hs.
  raise_bind Hs; [by eapply select_raises | by eapply column_at_raises].
Qed.

Section raises.
Context `{Stats}.

Lemma stats_pairwise_of_raises cond2run_dict w coverage names pairs e :
  (∀ c1 c2, (c1, c2) ∈ pairs →
     is_Some (cond2run_dict !! c1) ∧ is_Some (cond2run_dict !! c2)) →
  stats_pairwise_of cond2run_dict w coverage names pairs = Raise e →
  e = IndexError.
Proof.
  induction pairs as [|[c1 c2] rest IH]; intros Hp Hs; simpl in Hs;
    [discriminate|].
  destruct (Hp c1 c2) as [[runs1 H1] [runs2 H2]]; [left|].
  unfold getitem in Hs. rewrite H1, H2 in Hs. simpl in Hs.
  raise_bind Hs; [by eapply select_column_raises|].
  raise_bind Hs; [by eapply select_column_raises|].
  raise_bind Hs; [by eapply select_raises|].
  raise_bind Hs; [by eapply select_raises|].
  raise_bind Hs; [|discriminate].
  apply IH; [|done]. intros ? ? ?. apply Hp. by right.
Qed.

Lemma stats_one_vs_all_of_raises cond2run_dict w coverage names conds e :
  (∀ c, c ∈ conds → is_Some (cond2run_dict !! c)) →
  stats_one_vs_all_of cond2run_dict w coverage names conds = Raise e →
  e = IndexError.
Proof.
  induction conds as [|c rest IH]; intros Hp Hs; simpl in Hs; [discriminate|].
  destruct (Hp c) as [runs1 H1]; [left|].
  unfold getitem in Hs. rewrite H1 in Hs. simpl in Hs.
  raise_bind Hs; [by eapply select_column_raises|].
  raise_bind Hs; [by eapply select_column_raises|].
  raise_bind Hs; [by eapply select_raises|].
  raise_bind Hs; [by eapply select_raises|].
  raise_bind Hs; [|discriminate].
  apply IH; [|done]. intros ? ?. apply Hp. by right.
Qed.

Lemma ordered_by_run_raises w_min coverage names run_names e :
  ordered_by_run w_min coverage names run_names = Raise e → e = IndexError.
Proof.
  induction run_names as [|run_name rest IH]; intros Ho; simpl in Ho;
    [discriminate|].
  raise_bind Ho.
  { destruct w_min; simpl in Ho; [congruence | by eapply select_raises]. }
  raise_bind Ho; [by eapply select_raises|].
  raise_bind Ho; [auto | discriminate].
Qed.

Lemma row_of_raises cond2run_dict key model e :
  row_of cond2run_dict (condition_names_of cond2run_dict)
    (run_names_of cond2run_dict) key model = Raise e →
  e = IndexError.
Proof.
  unfold row_of. destruct key as [[idx position] kmer]. intros Hr.
  raise_bind Hr; [by eapply column_at_raises|].
  raise_bind Hr; [by eapply column_at_raises|].
  raise_bind Hr; [by eapply column_at_raises|].
  destruct (calc_prob_overlapping _ _) as [p_overlap cdf].
  raise_bind Hr.
  { eapply stats_pairwise_of_raises; [|done].
    intros c1 c2 [? ?]%elem_of_combinations2.
    split; by apply elem_of_condition_names_of. }
  raise_bind Hr.
  { case_bool_decide; [|discriminate].
    eapply stats_one_vs_all_of_raises; [|done].
    intros c. apply elem_of_condition_names_of. }
  raise_bind Hr.
  { unfold orient in Hr.
    raise_bind Hr; [by eapply index_raises|].
    raise_bind Hr; [by eapply index_raises|].
    by destruct (fltb _ _). }
  repeat match goal with x : (_ * _)%type |- _ => destruct x end.
  raise_bind Hr; [by eapply ordered_by_run_raises|].
  repeat match goal with x : (_ * _)%type |- _ => destruct x end.
  by case_bool_decide.
Qed.

Lemma rows_of_raises cond2run_dict models e :
  rows_of cond2run_dict (condition_names_of cond2run_dict)
    (run_names_of cond2run_dict) models = Raise e →
  e = IndexError.
Proof.
  induction models as [|[key model] rest IH]; intros Hr; simpl in Hr;
    [discriminate|].
  raise_bind Hr; [by eapply row_of_raises|].
  raise_bind Hr; [auto | discriminate].
Qed.

Lemma generate_result_table_rows_of models cond2run_dict :
  generate_result_table models cond2run_dict
  = rows_of cond2run_dict (condition_names_of cond2run_dict)
      (run_names_of cond2run_dict) models.
Proof.
  unfold generate_result_table, condition_names_of, run_names_of.
  by destruct (get_ordered_condition_run_names cond2run_dict).
Qed.

(** X14: a model fitted on a single group makes the table fail as soon as
    the mapping names a run: its weights are squeezed to a scalar, which
    takes no mask, and [IndexError] is raised. *)
Theorem generate_result_table_single_group_raises models cond2run_dict key
    model :
  (key, model) ∈ models →
  length (rows (w_expected model)) = 1%nat →
  run_names_of cond2run_dict ≠ [] →
  generate_result_table models cond2run_dict = Raise IndexError.
Proof.
  intros Hin Hone Hne.
  destruct (generate_result_table models cond2run_dict) as [table|e] eqn:Hg.
  - exfalso. rewrite generate_result_table_rows_of in Hg.
    apply rows_of_Ok in Hg.
    apply list_elem_of_lookup in Hin as [i Hi].
    destruct (Forall2_lookup_l _ _ _ _ _ Hg Hi) as (row & _ & Hrow).
    simpl in Hrow.
    destruct (row_of_groups _ _ _ _ _ _ Hrow Hne) as (w0 & Hw0 & Hw & _).
    apply column_at_Ok, mapM_Ok, Forall2_length in Hw0. congruence.
  - rewrite generate_result_table_rows_of in Hg.
    by apply rows_of_raises in Hg as ->.
Qed.

(** X15: the table has one row per model, in the order of the models, and
    each row starts with the key of its model: target, position, k-mer. *)
Theorem rows_follow_models models cond2run_dict table :
  generate_result_table models cond2run_dict = Ok table →
  length table = length models
  ∧ ∀ i idx position kmer model,
      models !! i = Some ((idx, position, kmer), model) →
      ∃ row, table !! i = Some row
             ∧ take 3 row = [CStr idx; CPos position; CText kmer].
Proof.
  intros Hg. rewrite generate_result_table_rows_of in Hg.
  apply rows_of_Ok in Hg. split; [symmetry; by eapply Forall2_length|].
  intros i idx position kmer model Hi.
  destruct (Forall2_lookup_l _ _ _ _ _ Hg Hi) as (row & Hrow & Hok).
  exists row. split; [done|]. cbn [fst snd] in Hok.
  by apply row_of_Ok in Hok as (m0 & m1 & w0 & _ & _ & _ & -> & _).
Qed.
End raises.

Lemma generate_result_table_single_group_raises_witness :
  @generate_result_table ex_stats [(ex_key, ex_fitted_single)] ex_cond2run
  = Raise IndexError.
Proof.
  apply (@generate_result_table_single_group_raises ex_stats
           [(ex_key, ex_fitted_single)] ex_cond2run ex_key ex_fitted_single).
  - left.
  - reflexivity.
  - vm_compute. discriminate.
Defined.

Lemma rows_follow_models_witness :
  length [ex_row] = length [(ex_key, ex_fitted)]
  ∧ ∀ i idx position kmer model,
      [(ex_key, ex_fitted)] !! i = Some ((idx, position, kmer), model) →
      ∃ row, [ex_row] !! i = Some row
             ∧ take 3 row = [CStr idx; CPos position; CText kmer].
Proof.
  apply (@rows_follow_models ex_stats [(ex_key, ex_fitted)] ex_cond2run).
  vm_compute. reflexivity.
Defined.

(** ** Model store: what a file holds *)

Lemma default_lookup_file (model_file : h5file) idx position :
  default ∅ (model_file !! idx) !! position
  = file_lookup model_file idx position.
Proof.
  unfold file_lookup. destruct (model_file !! idx); simpl; [done|].
  apply lookup_empty.
Qed.


(** A save that returns found every group path free and used each once. *)
Lemma save_models_into_fresh model_file models saved :
  save_models_into model_file models = Ok saved →
  NoDup (group_path <$> models)
  ∧ ∀ entry, entry ∈ models →
      file_lookup model_file (group_path entry).1 (group_path entry).2 = None.
Proof.
  revert model_file.
  induction models as [|[[[i p] k] m] rest IH]; intros model_file Hs;
    simpl in Hs.
  - split; [constructor|]. by intros ? ?%elem_of_nil.
  - destruct (default ∅ (model_file !! i) !! str p) eqn:Hfresh;
      [discriminate|].
    rewrite default_lookup_file in Hfresh.
    do 3 inv_bind Hs. destruct (IH _ Hs) as [Hnd Hnone].
    assert (∀ entry, entry ∈ rest →
              group_path entry ≠ (i, str p)
              ∧ file_lookup model_file (group_path entry).1
                  (group_path entry).2 = None) as Hrest.
    { intros entry Hin. specialize (Hnone entry Hin).
      rewrite file_lookup_insert in Hnone. case_decide as Hpath;
        [discriminate|].
      split; [|done]. intros Heq. apply Hpath. by rewrite Heq. }
    split.
    + simpl. apply NoDup_cons. split; [|done].
      intros (entry & Heq & Hin)%list_elem_of_fmap.
      by destruct (Hrest entry Hin) as [[] _].
    + intros entry [->|Hin]%elem_of_cons; [done|]. by apply Hrest.
Qed.

(** X17: [save_models] returns only for a mapping in which no two keys share
    the target and the text of the position. *)
Theorem save_models_distinct_paths models saved :
  save_models models = Ok saved → NoDup (group_path <$> models).
Proof. intros Hs. by apply save_models_into_fresh in Hs as [? _]. Qed.

Lemma save_models_distinct_paths_witness : NoDup (group_path <$> ex_models).
Proof.
  apply (save_models_distinct_paths ex_models ex_saved).
  vm_compute. reflexivity.
Defined.

(** The groups of a file, as [load_models] walks them. *)
Lemma load_models_inv api model_file loaded :
  load_models api model_file = Ok loaded →
  Forall2 (λ '(idx, position, g) entry,
             ∃ inits,
               load_nodes inits_nodes (map_to_list (group_nodes g)) = Ok inits
               ∧ entry = ((idx, PosStr position, read_attr api (attr_kmer g)),
                          GMM_of_inits inits))
    ('(idx, under_idx) ← map_to_list model_file;
     (λ e, (idx, e.1, e.2)) <$> map_to_list under_idx)
    loaded.
Proof.
  unfold load_models. intros Hl%mapM_Ok.
  eapply Forall2_impl; [exact Hl|].
  intros [[idx position] g] entry Hload. unfold load_position in Hload.
  inv_bind Hload. inv_Ok. eauto.
Qed.





(** X19: [load_models] returns exactly for the files in which every leaf
    under a node is an array of at least one dimension and every node that
    has leaves bears one of the five node names. *)
Theorem load_models_returns_iff api (model_file : h5file) :
  is_Ok (load_models api model_file) ↔ loadable_file model_file.
Proof.
  split; [|apply load_models_returns].
  intros [loaded Hl] idx position g Hg n leaves Hn.
  destruct (load_models_Ok _ _ _ _ _ _ Hl Hg) as (inits & Hinits & _).
  assert (∀ k d, leaves !! k = Some d →
            is_Ok (read_dataset d) ∧ n ∈ node_vocabulary) as Hleaf.
  { intros k d Hk.
    edestruct load_nodes_Ok as (ps & v & Hps & _ & Hread);
      [exact Hinits | apply NoDup_fst_map_to_list
      | apply elem_of_map_to_list; exact Hn | exact Hk |].
    split; [by eexists|].
    apply inits_nodes_vocabulary. eapply load_nodes_dom; [done|].
    by eexists. }
  split.
  - intros k d Hk. by apply (Hleaf k d).
  - intros [k [d Hk]]%map_choose. by apply (Hleaf k d).
Qed.

(** X20: with a library that hands the k-mer attribute back as [bytes],
    what was loaded from a saved non-empty mapping cannot be saved again:
    the k-mer of the first key has no [encode] and [AttributeError] is
    raised. *)
Theorem save_loaded_bytes_raises models saved loaded :
  models ≠ [] →
  save_models models = Ok saved →
  load_models H5py2 saved = Ok loaded →
  save_models loaded = Raise AttributeError.
Proof.
  intros Hne Hs Hl. apply load_models_inv in Hl.
  destruct models as [|[[[idx position] kmer] model] rest]; [done|].
  apply save_models_into_Ok in Hs as [_ Hs].
  destruct (Hs idx position kmer model) as (g & Hg & _); [left|].
  apply elem_of_stored_groups, list_elem_of_lookup in Hg as [n Hn].
  destruct (Forall2_lookup_l _ _ _ _ _ Hl Hn) as (entry & Hentry & _).
  destruct loaded as [|first others]; [by rewrite lookup_nil in Hentry|].
  apply Forall2_cons_inv_r in Hl
    as ([[idx' position'] g'] & stored & (inits & _ & ->) & _ & _).
  unfold save_models. simpl. rewrite lookup_empty. simpl.
  by rewrite lookup_empty.
Qed.

Lemma save_loaded_bytes_raises_witness :
  save_models ex_loaded = Raise AttributeError.
Proof.
  apply (save_loaded_bytes_raises ex_models ex_saved ex_loaded).
  - discriminate.
  - vm_compute. reflexivity.
  - vm_compute. reflexivity.
Defined.
